(** * Supermarket back end (app/server.js): catalog seeding, order placement
      and barcode lookup, embedded as functions on an explicit database state.

    The Express handlers of [server.js] talk to PostgreSQL through [pg].  Each
    SQL statement of the source becomes a function on the tables it touches,
    the handler's [try]/[catch]/[return] control flow becomes a small monad
    over the connection, and JavaScript numbers are IEEE binary64 values
    (Rocq's primitive floats), so totals are computed exactly as node does.
    Ids are values of PostgreSQL's [UUID] type: a request names one by any
    text the type's input accepts, and rows are compared by value. *)

From Stdlib Require Import ZArith NArith List String Ascii Bool Lia Floats.
From Stdlib Require Import DecimalString Permutation.
Import ListNotations.

Set Warnings "-inexact-float".

Local Open Scope string_scope.
Local Open Scope list_scope.
Local Open Scope Z_scope.

Infix "^^" := String.append (at level 60, right associativity).

(** ** JavaScript numbers and their renderings *)

Module JS.

(** The double nearest to an integer (a JSON integer literal, or an [INT]
    column read by the driver). *)
Definition Number_of_Z (z : Z) : float :=
  SF2Prim (binary_normalize prec emax z 0 false).

(** [Number(s)] for the text of a [DECIMAL(10,2)] column holding [cents]
    hundredths: the double nearest to [cents / 100].  Both operands convert
    exactly (a [DECIMAL(10,2)] is below [10^10 < 2^53]) and IEEE division
    rounds the exact quotient once. *)
Definition Number_of_decimal2 (cents : Z) : float :=
  (Number_of_Z cents / Number_of_Z 100)%float.

(** The decimal digits of an integer, with a minus sign when negative. *)
Definition Z_toString (z : Z) : string :=
  NilZero.string_of_int (Z.to_int z).

(** [String(n)], as in [`${n}`] and [n.toString()], for an integer-valued
    number [n].  Below [2^53] every integer is a double of its own and the
    text is its decimal digits.  From [2^53] on the text is the shortest
    digit string that reads back as the same double, in exponent notation
    from [1e21]; that text is not computed here but taken from [large]. *)
Definition Number_toString (large : Z -> string) (z : Z) : string :=
  if Z.abs z <? 2 ^ 53 then Z_toString z
  else (if z <? 0 then "-" else "") ^^ large (Z.abs z).

(** The nearest integer to [m * 2^e], the larger one on a tie. *)
Definition round_half_up (m e : Z) : Z :=
  match e with
  | Zneg k => (2 * m + Z.pow_pos 2 k) / (2 * Z.pow_pos 2 k)
  | _ => m * 2 ^ e
  end.

(** The integer part of [m * 2^e]. *)
Definition integer_part (m e : Z) : Z :=
  match e with
  | Zneg k => m / Z.pow_pos 2 k
  | _ => m * 2 ^ e
  end.

Definition two_digits (z : Z) : string :=
  if z <? 10 then "0" ^^ Z_toString z else Z_toString z.

(** The fixed-point text of [n] hundredths, [n >= 0]. *)
Definition render_hundredths (n : Z) : string :=
  Z_toString (n / 100) ^^ "." ^^ two_digits (n mod 100).

(** [x.toFixed(2)]: the sign is split off; from [1e21] on the text is that of
    [String(x)]; below, [n] is the integer for which [n / 100 - x] is closest
    to zero, the larger [n] on a tie, written with two decimals. *)
Definition toFixed2 (large : Z -> string) (x : float) : string :=
  match Prim2SF x with
  | S754_nan => "NaN"
  | S754_infinity s => if s then "-Infinity" else "Infinity"
  | S754_zero _ => "0.00"
  | S754_finite s m e =>
      (if s then "-" else "")
      ^^ (if 10 ^ 21 <=? integer_part (Zpos m) e
          then large (integer_part (Zpos m) e)
          else render_hundredths (round_half_up (100 * Zpos m) e))
  end.

(** The double [x] is positive and within 0.0002 of [t] ten-thousandths:
    with [x = m * 2^e], [|10^4 * x - t| < 2]. *)
Definition close_to (x : float) (t : Z) : Prop :=
  match Prim2SF x with
  | S754_finite false m e =>
      match e with
      | Zneg k => Z.abs (10000 * Zpos m - t * Z.pow_pos 2 k) < 2 * Z.pow_pos 2 k
      | _ => Z.abs (10000 * (Zpos m * 2 ^ e) - t) < 2
      end
  | _ => False
  end.


(** [Math.floor(x)] of a finite double, as an integer. *)
Definition Math_floor (x : float) : Z :=
  match Prim2SF x with
  | S754_finite s m e =>
      let v := if s then Zneg m else Zpos m in
      match e with
      | Zneg k => v / Z.pow_pos 2 k
      | _ => v * 2 ^ e
      end
  | _ => 0
  end.

(** [s.substring(0, n)]. *)
Definition substring0 (n : nat) (s : string) : string := String.substring 0 n s.

End JS.

(** ** Ids

    [products.id], [orders.id] and [order_items.id] are [UUID] columns: 128
    bits.  A statement's parameter reaches the column as text, which the
    type's input function reads: thirty-two hexadecimal digits of either
    case, optionally in braces, with an optional hyphen after any group of
    four digits.  Any other text makes the store reject the statement. *)

Module UUID.

Definition hex_value (c : ascii) : option N :=
  let n := N_of_ascii c in
  if ((48 <=? n) && (n <=? 57))%N then Some (n - 48)%N
  else if ((97 <=? n) && (n <=? 102))%N then Some (n - 87)%N
  else if ((65 <=? n) && (n <=? 70))%N then Some (n - 55)%N
  else None.

(** [left] bytes to read, the next being byte [i]: two digits, then a hyphen
    is skipped if byte [i] ends a group of four digits other than the last. *)
Fixpoint read_bytes (left i : nat) (src : string) (acc : N) : option (N * string) :=
  match left with
  | O => Some (acc, src)
  | S left' =>
      match src with
      | String c1 (String c2 rest) =>
          match hex_value c1, hex_value c2 with
          | Some h1, Some h2 =>
              let rest' :=
                match rest with
                | String "-"%char r => if Nat.odd i && (i <? 15)%nat then r else rest
                | _ => rest
                end in
              read_bytes left' (S i) rest' (256 * acc + 16 * h1 + h2)%N
          | _, _ => None
          end
      | _ => None
      end
  end.

(** The value a text denotes, [None] for "invalid input syntax for type
    uuid". *)
Definition of_text (source : string) : option N :=
  let (braces, src) :=
    match source with
    | String "{"%char r => (true, r)
    | _ => (false, source)
    end in
  match read_bytes 16 0 src 0 with
  | Some (v, rest) =>
      if braces then
        match rest with
        | String "}"%char EmptyString => Some v
        | _ => None
        end
      else
        match rest with
        | EmptyString => Some v
        | _ => None
        end
  | None => None
  end.

End UUID.

(** ** Tables

    A table is the list of its rows.  The order of the list is the model's
    own: no statement of the source has an [ORDER BY], and what a reply
    lists is stated up to the order of its rows. *)

Definition uuid := N.

(** A row of [products]; [price] is the [DECIMAL(10,2)] value in hundredths. *)
Record product := mkProduct {
  id : uuid;
  name : string;
  price : Z;
  stock : Z;
  barcode : option string
}.

(** A row of [orders]; [total] is the statement's parameter, which the column
    keeps at scale 2. *)
Record order := mkOrder {
  order_id : uuid;
  total : float;
  created_at : Z;
  pickup_code : string
}.

(** A row of [order_items]. *)
Record order_item := mkOrderItem {
  oi_id : uuid;
  oi_order_id : uuid;
  oi_product_id : uuid;
  oi_quantity : Z
}.

Record database := mkDatabase {
  products : list product;
  orders : list order;
  order_items : list order_item
}.

Definition set_stock (n : Z) (p : product) : product :=
  mkProduct (id p) (name p) (price p) n (barcode p).

Definition set_products (ps : list product) (d : database) : database :=
  mkDatabase ps (orders d) (order_items d).

(** ** Requests and responses *)

(** An element of [items]: an object with a [productId], the text the client
    sent, and an integer [quantity]. *)
Record item := mkItem {
  productId : string;
  quantity : Z
}.

(** What [req.body.items] can be. *)
Inductive items_field :=
| ItemsUndefined
| ItemsNull
| ItemsBoolean (b : bool)
| ItemsNumber (z : Z)
| ItemsString (s : string)
| ItemsObject
| ItemsArray (l : list item).

Definition Array_isArray (v : items_field) : bool :=
  match v with ItemsArray _ => true | _ => false end.

Definition array_elements (v : items_field) : list item :=
  match v with ItemsArray l => l | _ => [] end.

(** An entry of the [items] array of a successful reply; [r_productId] is
    [product.id], the id as the row holds it. *)
Record resolved_item := mkResolved {
  r_productId : uuid;
  r_quantity : Z;
  r_name : string;
  r_price : float
}.

Inductive json_body :=
| ErrorBody (error : string)
| OrderBody (orderId : uuid) (total : string) (pickupCode : string)
            (items : list resolved_item)
| ProductBody (p : product).

Record response := mkResponse {
  status : Z;
  body : json_body
}.

(** What the handler cannot decide: which statements the store rejects for a
    reason outside their text (a lost connection, a value out of the range
    of an [INT] or [DECIMAL(10,2)] column), [Math.random()], the ids of
    [gen_random_uuid()], [NOW()], and the text the runtime gives an integer
    of [2^53] or more. *)
Record environment := mkEnv {
  fault : nat -> bool;            (* is the n-th statement of the request rejected *)
  Math_random : float;
  gen_random_uuid : nat -> uuid;  (* the id drawn in the n-th statement or row *)
  NOW : Z;
  Number_digits : Z -> string     (* [String(n)] for an integer [n >= 2^53] *)
}.

(** ** The connection and its statements *)

(** A checked-out client.  [saved] is the state [ROLLBACK] returns to, present
    while a transaction is open; [issued] counts the statements sent. *)
Record connection := mkConn {
  store : database;
  saved : option database;
  issued : nat
}.

Definition connect (d : database) : connection := mkConn d None 0.

(** The tables as every other connection sees them. *)
Definition committed (c : connection) : database :=
  match saved c with
  | Some d => d
  | None => store c
  end.

(** A statement yields its result and the connection after it, or [None]
    when the store refuses one of its parameters. *)
Module SQL.

Definition BEGIN (c : connection) : option (unit * connection) :=
  Some (tt, match saved c with
            | None => mkConn (store c) (Some (store c)) (issued c)
            | Some _ => c
            end).

Definition ROLLBACK (c : connection) : option (unit * connection) :=
  Some (tt, mkConn (committed c) None (issued c)).

Definition COMMIT (c : connection) : option (unit * connection) :=
  Some (tt, mkConn (store c) None (issued c)).

Definition on_store {A : Type} (f : database -> option (A * database))
    (c : connection) : option (A * connection) :=
  match f (store c) with
  | Some (a, d) => Some (a, mkConn d (saved c) (issued c))
  | None => None
  end.

(** [SELECT id, name, price, stock FROM products WHERE id = $1 FOR UPDATE] *)
Definition select_product_for_update (p1 : string) (d : database)
    : option (list product * database) :=
  match UUID.of_text p1 with
  | Some v => Some (filter (fun p => N.eqb (id p) v) (products d), d)
  | None => None
  end.

(** [UPDATE products SET stock = stock - $1 WHERE id = $2] *)
Definition update_stock (p1 : Z) (p2 : string) (d : database)
    : option (unit * database) :=
  match UUID.of_text p2 with
  | Some v =>
      Some (tt, set_products
                  (map (fun p => if N.eqb (id p) v
                                 then set_stock (stock p - p1) p else p)
                       (products d))
                  d)
  | None => None
  end.

(** [INSERT INTO orders (total, pickup_code) VALUES ($1, $2) RETURNING id] *)
Definition insert_order (new_id : uuid) (created : Z) (p1 : float) (p2 : string)
    (d : database) : option (uuid * database) :=
  Some (new_id,
        mkDatabase (products d) (orders d ++ [mkOrder new_id p1 created p2])
                   (order_items d)).

(** [INSERT INTO order_items (order_id, product_id, quantity) VALUES ($1, $2, $3)],
    with the ids the store itself returned. *)
Definition insert_order_item (new_id : uuid) (p1 p2 : uuid) (p3 : Z)
    (d : database) : option (unit * database) :=
  Some (tt,
        mkDatabase (products d) (orders d)
                   (order_items d ++ [mkOrderItem new_id p1 p2 p3])).

(** [SELECT * FROM products WHERE barcode = $1] *)
Definition select_products_by_barcode (p1 : string) (d : database) : list product :=
  filter (fun p => match barcode p with
                   | Some b => String.eqb b p1
                   | None => false
                   end)
         (products d).

(** [SELECT * FROM orders WHERE id = $1] *)
Definition select_order (p1 : string) (d : database) : option (list order) :=
  match UUID.of_text p1 with
  | Some v => Some (filter (fun o => N.eqb (order_id o) v) (orders d))
  | None => None
  end.

(** [SELECT p.name, oi.quantity FROM order_items oi
     JOIN products p ON oi.product_id = p.id WHERE oi.order_id = $1] *)
Definition select_order_items (p1 : string) (d : database)
    : option (list (string * Z)) :=
  match UUID.of_text p1 with
  | Some v =>
      Some (flat_map
              (fun oi =>
                 if N.eqb (oi_order_id oi) v
                 then map (fun p => (name p, oi_quantity oi))
                          (filter (fun p => N.eqb (id p) (oi_product_id oi))
                                  (products d))
                 else [])
              (order_items d))
  | None => None
  end.

End SQL.

(** ** Control flow of an [async] handler *)

Inductive completion (A : Type) :=
| Normal (a : A)
| Return (r : response)   (* [return res.status(..).json(..)] *)
| Throw.                  (* a rejected [await] *)

Arguments Normal {A} a.
Arguments Return {A} r.
Arguments Throw {A}.

Definition js (A : Type) := connection -> completion A * connection.

Definition ret {A : Type} (a : A) : js A := fun c => (Normal a, c).

Definition bind {A B : Type} (m : js A) (k : A -> js B) : js B :=
  fun c =>
    match m c with
    | (Normal a, c') => k a c'
    | (Return r, c') => (Return r, c')
    | (Throw, c') => (Throw, c')
    end.

Definition return_ {A : Type} (r : response) : js A := fun c => (Return r, c).

Notation "x <- m ;; k" := (bind m (fun x => k))
  (at level 61, m at next level, right associativity).
Notation "' pat <- m ;; k" := (bind m (fun x => match x with pat => k end))
  (at level 61, pat pattern, m at next level, right associativity).
Notation "m ;;; k" := (bind m (fun _ => k))
  (at level 61, right associativity).

(** [try { body } catch (err) { handler }]: the reply and the connection
    afterwards. *)
Definition try_catch (body : js response) (handler : connection -> response * connection)
    (c : connection) : response * connection :=
  match body c with
  | (Normal r, c') => (r, c')
  | (Return r, c') => (r, c')
  | (Throw, c') => handler c'
  end.

Definition json (code : Z) (b : json_body) : response := mkResponse code b.

(** ** POST /api/orders *)

Section Handlers.

Variable env : environment.

(** [await client.query(..)]: the statement is counted, and either the store
    rejects it, leaving the tables as they were, or it takes effect. *)
Definition client_query {A : Type} (sql : connection -> option (A * connection))
    : js A :=
  fun c =>
    let c1 := mkConn (store c) (saved c) (S (issued c)) in
    if fault env (issued c) then (Throw, c1)
    else match sql c1 with
         | Some (a, c2) => (Normal a, c2)
         | None => (Throw, c1)
         end.

Definition tax_rate : float := 0.08%float.

Definition product_not_found (it : item) : json_body :=
  ErrorBody ("Product not found: " ^^ productId it).

Definition insufficient_stock (p : product) (it : item) : json_body :=
  ErrorBody ("Insufficient stock for " ^^ name p ^^ ". Available: "
             ^^ JS.Number_toString (Number_digits env) (stock p) ^^ ", Requested: "
             ^^ JS.Number_toString (Number_digits env) (quantity it)).

(** [for (const item of items) { .. }], with the loop's two accumulators. *)
Fixpoint for_items (its : list item) (total : float)
    (orderItems : list resolved_item) : js (float * list resolved_item) :=
  match its with
  | [] => ret (total, orderItems)
  | it :: rest =>
      rows <- client_query
                (SQL.on_store (SQL.select_product_for_update (productId it))) ;;
      match rows with
      | [] =>
          client_query SQL.ROLLBACK ;;;
          return_ (json 404 (product_not_found it))
      | p :: _ =>
          let price_ := JS.Number_of_decimal2 (price p) in
          if stock p <? quantity it then
            client_query SQL.ROLLBACK ;;;
            return_ (json 400 (insufficient_stock p it))
          else
            let total' := (total + price_ * JS.Number_of_Z (quantity it))%float in
            client_query
              (SQL.on_store (SQL.update_stock (quantity it) (productId it))) ;;;
            for_items rest total'
                      (orderItems ++ [mkResolved (id p) (quantity it) (name p) price_])
      end
  end.

(** [for (const item of orderItems) { INSERT INTO order_items .. }] *)
Fixpoint for_orderItems (orderId : uuid) (ois : list resolved_item) : js unit :=
  match ois with
  | [] => ret tt
  | oi :: rest =>
      client_query (fun c =>
        SQL.on_store (SQL.insert_order_item (gen_random_uuid env (issued c))
                        orderId (r_productId oi) (r_quantity oi)) c) ;;;
      for_orderItems orderId rest
  end.

(** [Math.floor(100000 + r * 900000).toString().substring(0, 6)] *)
Definition pickup_code_of (r : float) : string :=
  JS.substring0 6 (JS.Number_toString (Number_digits env)
                     (JS.Math_floor (100000 + r * 900000)%float)).

Definition post_orders_try (items : items_field) : js response :=
  client_query SQL.BEGIN ;;;
  if negb (Array_isArray items) || (List.length (array_elements items) =? 0)%nat then
    client_query SQL.ROLLBACK ;;;
    return_ (json 400 (ErrorBody "Invalid items data provided."))
  else
    '(total, orderItems) <- for_items (array_elements items) 0%float [] ;;
    let totalWithTax := (total * (1 + tax_rate))%float in
    let pickupCode := pickup_code_of (Math_random env) in
    orderId <- client_query (fun c =>
                 SQL.on_store (SQL.insert_order (gen_random_uuid env (issued c))
                                 (NOW env) totalWithTax pickupCode) c) ;;
    for_orderItems orderId orderItems ;;;
    client_query SQL.COMMIT ;;;
    ret (json 200 (OrderBody orderId (JS.toFixed2 (Number_digits env) totalWithTax)
                             pickupCode orderItems)).

(** The [catch] block.  Its [ROLLBACK] is taken to reach the server: when it
    cannot, the server aborts the open transaction itself. *)
Definition post_orders_catch (c : connection) : response * connection :=
  match SQL.ROLLBACK c with
  | Some (_, c') => (json 500 (ErrorBody "Failed to create order"), c')
  | None => (json 500 (ErrorBody "Failed to create order"), c)
  end.

Definition post_orders (items : items_field) (d : database) : response * connection :=
  try_catch (post_orders_try items) post_orders_catch (connect d).

(** ** GET /api/products/barcode/:barcode *)

Definition get_product_by_barcode (barcode_ : string) (d : database) : response :=
  if fault env 0 then json 500 (ErrorBody "Failed to fetch product")
  else
    let rows := SQL.select_products_by_barcode barcode_ d in
    match rows with
    | [] => json 404 (ErrorBody "Product not found")
    | p :: _ => json 200 (ProductBody p)
    end.

End Handlers.

(** ** initDB: schema and sample data *)

(** A row of the [VALUES] list: name, price in hundredths, stock, barcode. *)
Record sample := mkSample {
  s_name : string;
  s_price : Z;
  s_stock : Z;
  s_barcode : string
}.

Definition sample_products : list sample :=
  [ mkSample "Milk" 300 50 "1234567890";
    mkSample "Bread" 200 100 "1111222233";
    mkSample "Eggs" 350 75 "6677889900";
    mkSample "Cheese" 450 40 "4444555566";
    mkSample "Butter" 275 30 "7777888899";
    mkSample "Yogurt" 125 60 "3333444455";
    mkSample "Apple" 75 120 "8888999900";
    mkSample "Banana" 50 150 "2222333344";
    mkSample "Orange" 85 100 "5555666677" ].

Definition has_barcode (b : string) (p : product) : bool :=
  match barcode p with
  | Some b' => String.eqb b' b
  | None => false
  end.

(** [SET price = EXCLUDED.price, stock = EXCLUDED.stock, barcode = EXCLUDED.barcode] *)
Definition excluded (s : sample) (p : product) : product :=
  mkProduct (id p) (name p) (s_price s) (s_stock s) (Some (s_barcode s)).

(** One row of [INSERT INTO products .. ON CONFLICT (name) DO UPDATE SET ..]:
    a row of that name is overwritten, otherwise a row with a fresh id is
    added; [None] when the primary key or the [UNIQUE] barcode is violated,
    which only a conflict on [name] is excused from. *)
Definition upsert (new_id : uuid) (s : sample) (ps : list product)
    : option (list product) :=
  if existsb (fun p => String.eqb (name p) (s_name s)) ps then
    if existsb (fun p => negb (String.eqb (name p) (s_name s))
                         && has_barcode (s_barcode s) p) ps
    then None
    else Some (map (fun p => if String.eqb (name p) (s_name s)
                             then excluded s p else p) ps)
  else
    if existsb (fun p => N.eqb (id p) new_id) ps
       || existsb (has_barcode (s_barcode s)) ps
    then None
    else Some (ps ++ [mkProduct new_id (s_name s) (s_price s) (s_stock s)
                                (Some (s_barcode s))]).

(** The [VALUES] rows in order; the statement fails as a whole. *)
Fixpoint upsert_all (ids : nat -> uuid) (n : nat) (ss : list sample)
    (ps : list product) : option (list product) :=
  match ss with
  | [] => Some ps
  | s :: rest =>
      match upsert (ids n) s ps with
      | Some ps' => upsert_all ids (S n) rest ps'
      | None => None
      end
  end.

(** [initDB(pool)]: three [CREATE TABLE IF NOT EXISTS], which leave existing
    tables alone, then the upsert; [None] when a statement throws. *)
Definition initDB (env : environment) (d : database) : option database :=
  if fault env 0 || fault env 1 || fault env 2 || fault env 3 then None
  else
    match upsert_all (gen_random_uuid env) 0 sample_products (products d) with
    | Some ps => Some (set_products ps d)
    | None => None
    end.

Definition empty_database : database := mkDatabase [] [] [].

(** ** The accepted order, read off the catalog

    What the loop of [POST /api/orders] does to the catalog when no statement
    fails, as functions of the rows alone.  The handler is related to them in
    [for_items_spec] below. *)

(** [rows[0]] of the select by id. *)
Definition lookup (ps : list product) (pid : uuid) : option product :=
  hd_error (filter (fun p => N.eqb (id p) pid) ps).

(** The id an item names, if its [productId] is the text of one. *)
Definition item_id (it : item) : option uuid := UUID.of_text (productId it).

(** The row an item refers to. *)
Definition lookup_item (ps : list product) (it : item) : option product :=
  match item_id it with
  | Some pid => lookup ps pid
  | None => None
  end.

(** One row under the [UPDATE] of an item. *)
Definition adjust (it : item) (p : product) : product :=
  match item_id it with
  | Some pid => if N.eqb (id p) pid then set_stock (stock p - quantity it) p else p
  | None => p
  end.

(** The rows after one item's [UPDATE]. *)
Definition decrement (it : item) (ps : list product) : list product :=
  map (adjust it) ps.

Definition decrement_all (its : list item) (ps : list product) : list product :=
  fold_left (fun acc it => decrement it acc) its ps.

(** The quantity an order asks of product [pid], over all its occurrences
    under any spelling of the id. *)
Definition requested (its : list item) (pid : uuid) : Z :=
  fold_right (fun it acc =>
                match item_id it with
                | Some v => if N.eqb pid v then quantity it + acc else acc
                | None => acc
                end) 0 its.

(** The unit price of an item's product as the handler reads it,
    [Number(product.price)]. *)
Definition unit_price (ps : list product) (it : item) : float :=
  match lookup_item ps it with
  | Some p => JS.Number_of_decimal2 (price p)
  | None => 0%float
  end.

(** [total] after the loop: the sum of price times quantity in list order,
    in binary64 arithmetic from [start]. *)
Definition subtotal_from (ps : list product) (its : list item) (start : float) : float :=
  fold_left (fun t it =>
               (t + unit_price ps it * JS.Number_of_Z (quantity it))%float)
            its start.

Definition subtotal (ps : list product) (its : list item) : float :=
  subtotal_from ps its 0%float.

(** The same sum in exact arithmetic, in hundredths: the prices as the
    [DECIMAL(10,2)] column holds them. *)
Definition exact_subtotal (ps : list product) (its : list item) : Z :=
  fold_right (fun it acc =>
                match lookup_item ps it with
                | Some p => price p * quantity it + acc
                | None => acc
                end) 0 its.

(** [total * (1 + taxRate)] *)
Definition with_tax (t : float) : float := (t * (1 + tax_rate))%float.

(** The reply's entry for an item. *)
Definition resolve (ps : list product) (it : item) : resolved_item :=
  match lookup_item ps it with
  | Some p => mkResolved (id p) (quantity it) (name p) (JS.Number_of_decimal2 (price p))
  | None => mkResolved 0%N (quantity it) "" 0%float
  end.

(** The outcome of the checks over a list of items, each item seeing the
    stock its predecessors left. *)
Inductive stock_check :=
| Accepted (ps' : list product)
| InvalidProductId (it : item)
| NotFound (it : item)
| InsufficientStock (p : product) (it : item).

Fixpoint check_stock (ps : list product) (its : list item) : stock_check :=
  match its with
  | [] => Accepted ps
  | it :: rest =>
      match item_id it with
      | None => InvalidProductId it
      | Some pid =>
          match lookup ps pid with
          | None => NotFound it
          | Some p =>
              if stock p <? quantity it then InsufficientStock p it
              else check_stock (decrement it ps) rest
          end
      end
  end.

Definition total_stock (ps : list product) : Z :=
  fold_right (fun p acc => stock p + acc) 0 ps.

Definition total_quantity (its : list item) : Z :=
  fold_right (fun it acc => quantity it + acc) 0 its.

(** The [PRIMARY KEY] and [UNIQUE] constraints of [products]. *)
Definition unique_ids (ps : list product) : Prop := NoDup (map id ps).
Definition unique_names (ps : list product) : Prop := NoDup (map name ps).

Definition no_faults (env : environment) : Prop := forall n, fault env n = false.

(** The columns of an [order_items] row the handler supplies. *)
Definition oi_columns (row : order_item) : uuid * option uuid * Z :=
  (oi_order_id row, Some (oi_product_id row), oi_quantity row).

(** The six ways [POST /api/orders] ends: the reply, and the tables it
    leaves, for a request [items] on tables [d]. *)
Inductive outcome (env : environment) (d : database) (items : items_field)
    : response -> database -> Prop :=
| Placed its o rows :
    items = ItemsArray its ->
    its <> [] ->
    check_stock (products d) its = Accepted (decrement_all its (products d)) ->
    map oi_columns rows = map (fun it => (order_id o, item_id it, quantity it)) its ->
    total o = with_tax (subtotal (products d) its) ->
    outcome env d items
      (json 200 (OrderBody (order_id o)
                           (JS.toFixed2 (Number_digits env) (total o))
                           (pickup_code o)
                           (map (resolve (products d)) its)))
      (mkDatabase (decrement_all its (products d)) (orders d ++ [o])
                  (order_items d ++ rows))
| InvalidRequest :
    Array_isArray items = false \/ array_elements items = [] ->
    outcome env d items (json 400 (ErrorBody "Invalid items data provided.")) d
| UnknownProduct it :
    array_elements items <> [] ->
    check_stock (products d) (array_elements items) = NotFound it ->
    outcome env d items (json 404 (product_not_found it)) d
| OutOfStock p it :
    array_elements items <> [] ->
    check_stock (products d) (array_elements items) = InsufficientStock p it ->
    outcome env d items (json 400 (insufficient_stock env p it)) d
| MalformedId it :
    array_elements items <> [] ->
    check_stock (products d) (array_elements items) = InvalidProductId it ->
    outcome env d items (json 500 (ErrorBody "Failed to create order")) d
| StoreError n :
    fault env n = true ->
    outcome env d items (json 500 (ErrorBody "Failed to create order")) d.

Definition nonnegative_stock (ps : list product) : Prop :=
  forall p, In p ps -> 0 <= stock p.

(** The [UNIQUE] constraint on [barcode]. *)
Definition unique_barcodes (ps : list product) : Prop :=
  forall p q b, In p ps -> In q ps ->
                barcode p = Some b -> barcode q = Some b -> p = q.

Definition response_total (r : response) : option string :=
  match body r with
  | OrderBody _ t _ _ => Some t
  | _ => None
  end.

(** What the loop leaves behind, by the way it ends: all items accepted and
    decremented inside the open transaction, a reply after [ROLLBACK], or a
    rejected statement with the transaction still open. *)
Definition loop_post (env : environment) (d0 : database) (c : connection)
    (its : list item) (total : float) (ois : list resolved_item)
    (out : completion (float * list resolved_item) * connection) : Prop :=
  let ps := products (store c) in
  match out with
  | (Normal (t, ois'), c') =>
      saved c' = Some d0 /\
      check_stock ps its = Accepted (products (store c')) /\
      products (store c') = decrement_all its ps /\
      orders (store c') = orders (store c) /\
      order_items (store c') = order_items (store c) /\
      t = subtotal_from ps its total /\
      ois' = ois ++ map (resolve ps) its
  | (Return r, c') =>
      saved c' = None /\ store c' = d0 /\
      ((exists it, r = json 404 (product_not_found it)
                   /\ check_stock ps its = NotFound it) \/
       (exists p it, r = json 400 (insufficient_stock env p it)
                     /\ check_stock ps its = InsufficientStock p it))
  | (Throw, c') =>
      saved c' = Some d0 /\
      ((exists n, fault env n = true) \/
       (exists it, check_stock ps its = InvalidProductId it))
  end.

(** ** Seeding, row by row *)

Definition named (s : sample) (p : product) : bool := String.eqb (name p) (s_name s).

Definition overwrite (s : sample) (p : product) : product :=
  if named s p then excluded s p else p.

Definition sample_row (new_id : uuid) (s : sample) : product :=
  mkProduct new_id (s_name s) (s_price s) (s_stock s) (Some (s_barcode s)).

(** What the statement makes of an existing row: the sample of its name, if
    any, overwrites price, stock and barcode. *)
Definition refresh (ss : list sample) (p : product) : product :=
  match find (fun s => named s p) ss with
  | Some s => excluded s p
  | None => p
  end.

(** The catalog holds sample [s] as the statement leaves it: a row of that
    name exists, every row of that name has the sample's price, stock and
    barcode, and no row of another name has its barcode. *)
Definition settled (s : sample) (ps : list product) : Prop :=
  (exists p, In p ps /\ name p = s_name s) /\
  (forall p, In p ps -> name p = s_name s ->
             price p = s_price s /\ stock p = s_stock s
             /\ barcode p = Some (s_barcode s)) /\
  (forall p, In p ps -> barcode p = Some (s_barcode s) -> name p = s_name s).

(** No row of another name holds a sample's barcode. *)
Definition barcodes_available (ss : list sample) (ps : list product) : Prop :=
  forall s p, In s ss -> In p ps -> barcode p = Some (s_barcode s) ->
              name p = s_name s.

(** The ids drawn for the [VALUES] rows [n .. n + k - 1] are new and distinct. *)
Definition ids_fresh (ids : nat -> uuid) (n k : nat) (ps : list product) : Prop :=
  (forall i p, (n <= i < n + k)%nat -> In p ps -> id p <> ids i) /\
  (forall i j, (n <= i < j)%nat -> (j < n + k)%nat -> ids i <> ids j).

(** ** The service over time *)

(** What changes the tables: a start of the server, which seeds, and an order
    request.  Requests on the same product are served one after the other,
    the row lock of [FOR UPDATE] holding the second until the first has
    committed or rolled back. *)
Inductive event :=
| Startup (env : environment)
| PlaceOrder (env : environment) (items : items_field).

Definition step (d : database) (e : event) : database :=
  match e with
  | Startup env =>
      match initDB env d with
      | Some d' => d'
      | None => d          (* [process.exit(1)], nothing written *)
      end
  | PlaceOrder env items => committed (snd (post_orders env items d))
  end.

Definition run (d : database) (es : list event) : database := fold_left step es d.

Definition stock_invariant (d : database) : Prop :=
  unique_ids (products d) /\ nonnegative_stock (products d).

(** ** A seeded catalog and sample requests *)

(** The environments below serve requests whose numbers all stay under
    [2^53]; their [Number_digits] is never consulted. *)
Definition startup : environment :=
  mkEnv (fun _ => false) 0%float
        (fun n => (0x00000000000040008000000000000000 + N.of_nat n)%N)
        1700000000 JS.Z_toString.

Definition calm : environment :=
  mkEnv (fun _ => false) 0.5%float
        (fun n => (0x11111111111141118111111111111100 + N.of_nat n)%N)
        1700000600 JS.Z_toString.

(** The store rejects the statement numbered [n]. *)
Definition failing_at (n : nat) : environment :=
  mkEnv (Nat.eqb n) (Math_random calm) (gen_random_uuid calm) (NOW calm)
        (Number_digits calm).

Definition seeded : database :=
  match initDB startup empty_database with
  | Some d => d
  | None => empty_database
  end.

(** The ids of Milk and Bread in [seeded], as values and as a client would
    write them. *)
Definition milk_uuid : uuid := 0x00000000000040008000000000000000%N.
Definition bread_uuid : uuid := 0x00000000000040008000000000000001%N.
Definition orange_uuid : uuid := 0x00000000000040008000000000000008%N.

Definition milk_id : string := "00000000-0000-4000-8000-000000000000".
Definition bread_id : string := "00000000-0000-4000-8000-000000000001".
Definition orange_id : string := "00000000-0000-4000-8000-000000000008".

(** The tables after two units of Milk were ordered from the seeded catalog. *)
Definition after_milk_order : database :=
  committed (snd (post_orders calm (ItemsArray [mkItem milk_id 2]) seeded)).

(** The tables after the server then starts again. *)
Definition restarted : database :=
  match initDB startup after_milk_order with
  | Some d => d
  | None => after_milk_order
  end.




(** ** connectDB *)

Inductive pool_result :=
| PoolReady                        (* [return pool] *)
| PoolError (message : string).    (* [throw new Error(..)] *)

(** A run of [connectDB]: how it ended, the calls of [pool.connect()] made,
    the console, and the milliseconds spent in [setTimeout]. *)
Record connect_run := mkConnectRun {
  pool : pool_result;
  attempts : nat;
  console : list string;
  waited : Z
}.

(** [for (let i = 0; i < 10; i++) { try {..} catch (err) {..} }] with [left]
    rounds to go.  [pool_connect i] is what the [i]-th call of
    [pool.connect()] does: [None] when it connects, the message of the error
    otherwise. *)
Fixpoint connect_loop (pool_connect : nat -> option string) (i left : nat)
    (log : list string) (slept : Z) : connect_run :=
  match left with
  | O => mkConnectRun (PoolError "Failed to connect to database after 10 attempts")
                      i log slept
  | S left' =>
      match pool_connect i with
      | None => mkConnectRun PoolReady (S i) (log ++ ["Database connected!"]) slept
      | Some message =>
          connect_loop pool_connect (S i) left'
            (log ++ ["Database connection failed (attempt "
                     ^^ JS.Z_toString (Z.of_nat (i + 1)) ^^ "/10): " ^^ message])
            (slept + 2000)
      end
  end.

Definition connectDB (pool_connect : nat -> option string) : connect_run :=
  connect_loop pool_connect 0 10 [] 0.

(** ** startServer *)

(** [startServer()] up to [app.listen]: [true] with the tables as seeded when
    the routes are registered and the server listens, [false] with the tables
    as they were when it ends in [process.exit(1)]. *)
Definition startServer (pool_connect : nat -> option string) (env : environment)
    (d : database) : bool * database :=
  match pool (connectDB pool_connect) with
  | PoolReady =>
      match initDB env d with
      | Some d' => (true, d')
      | None => (false, d)
      end
  | PoolError _ => (false, d)
  end.

(** ** GET /api/products and GET /api/orders/:orderId *)

(** [{...product, price: Number(product.price)}] *)
Record listed_product := mkListed {
  l_id : uuid;
  l_name : string;
  l_price : float;
  l_stock : Z;
  l_barcode : option string
}.

Inductive query_body :=
| QueryError (error : string)
| ProductList (l : list listed_product)
| OrderDetails (o : order) (items : list (string * Z)).

Record query_response := mkQuery {
  q_status : Z;
  q_body : query_body
}.

Definition listed (p : product) : listed_product :=
  mkListed (id p) (name p) (JS.Number_of_decimal2 (price p)) (stock p) (barcode p).

(** [SELECT * FROM products] hands its rows over in an order of the store's
    choosing, [scan]. *)
Definition get_products (env : environment)
    (scan : list product -> list product) (d : database) : query_response :=
  if fault env 0 then mkQuery 500 (QueryError "Failed to fetch products")
  else mkQuery 200 (ProductList (map listed (scan (products d)))).

(** [orderId] is [req.params.orderId], the text of the path; the rows of the
    join come in an order of the store's choosing, [scan]. *)
Definition get_order (env : environment)
    (scan : list (string * Z) -> list (string * Z)) (orderId : string)
    (d : database) : query_response :=
  if fault env 0 then mkQuery 500 (QueryError "Failed to fetch order")
  else
    match SQL.select_order orderId d with
    | None => mkQuery 500 (QueryError "Failed to fetch order")
    | Some [] => mkQuery 404 (QueryError "Order not found")
    | Some (o :: _) =>
        if fault env 1 then mkQuery 500 (QueryError "Failed to fetch order")
        else
          match SQL.select_order_items orderId d with
          | None => mkQuery 500 (QueryError "Failed to fetch order")
          | Some rows => mkQuery 200 (OrderDetails o (scan rows))
          end
    end.

(** ** Readings of replies and catalogs used below *)

Definition response_order_id (r : response) : option uuid :=
  match body r with
  | OrderBody orderId _ _ _ => Some orderId
  | _ => None
  end.

Definition response_items (r : response) : option (list resolved_item) :=
  match body r with
  | OrderBody _ _ _ its => Some its
  | _ => None
  end.

(** The name of the product of an id. *)
Definition product_name (ps : list product) (pid : uuid) : string :=
  match lookup ps pid with
  | Some p => name p
  | None => ""
  end.

(** The name of the product an item refers to. *)
Definition item_name (ps : list product) (it : item) : string :=
  match lookup_item ps it with
  | Some p => name p
  | None => ""
  end.

(** The columns of [products] other than [stock]. *)
Definition fixed_columns (p : product) : uuid * string * Z * option string :=
  (id p, name p, price p, barcode p).

(** No statement numbered from [a] up to [b], [b] excluded, is rejected. *)
Definition accepted_between (env : environment) (a b : nat) : Prop :=
  forall n, (a <= n < b)%nat -> fault env n = false.

(** A step of a handler counts its statements: it ends normally or with a
    reply only if the store accepted every statement it sent, and such a
    reply is never the 500; when it throws, it has sent a statement. *)
Definition counts_statements (env : environment) {A : Type} (Q : A -> Prop)
    (m : js A) : Prop :=
  forall c,
    match m c with
    | (Normal a, c') =>
        Q a /\ (issued c <= issued c')%nat
        /\ accepted_between env (issued c) (issued c')
    | (Return r, c') =>
        status r <> 500 /\ (issued c <= issued c')%nat
        /\ accepted_between env (issued c) (issued c')
    | (Throw, c') =>
        (issued c < issued c')%nat
        /\ accepted_between env (issued c) (issued c' - 1)
    end.

(** The reply to an accepted list of items when the store rejects nothing. *)
Definition placed_reply (env : environment) (ps : list product) (its : list item)
    : response :=
  json 200 (OrderBody (gen_random_uuid env (2 * List.length its + 2))
                      (JS.toFixed2 (Number_digits env) (with_tax (subtotal ps its)))
                      (pickup_code_of env (Math_random env))
                      (map (resolve ps) its)).

(** Two lists of items name no product in common, under any spelling. *)
Definition disjoint_products (its1 its2 : list item) : Prop :=
  forall a b v, In a its1 -> In b its2 ->
                item_id a = Some v -> item_id b <> Some v.

(** The [PRIMARY KEY] and [UNIQUE] constraints of [products] together. *)
Definition schema_invariant (d : database) : Prop :=
  unique_ids (products d) /\ unique_names (products d)
  /\ unique_barcodes (products d).

(** The catalog is empty or has a row for every sample, and no row of another
    name holds a sample's barcode. *)
Definition restartable (d : database) : Prop :=
  barcodes_available sample_products (products d) /\
  (products d = [] \/
   forall s, In s sample_products -> exists p, In p (products d) /\ name p = s_name s).

(** A pool that refuses the first three connections. *)
Definition slow_pool (i : nat) : option string :=
  if (i <? 3)%nat then Some "connect ECONNREFUSED" else None.

(** A second client's environment, drawing other ids. *)
Definition calm' : environment :=
  mkEnv (fun _ => false) 0.25%float
        (fun n => (0x22222222222242228222222222222200 + N.of_nat n)%N)
        1700001200 JS.Z_toString.

(** The id of the order of [after_milk_order], as a value and in two of its
    spellings. *)
Definition milk_order_uuid : uuid := 0x11111111111141118111111111111104%N.
Definition milk_order_id : string := "11111111-1111-4111-8111-111111111104".
Definition milk_order_id_braced : string := "{11111111111141118111111111111104}".

(** The amount of [n] hundredths written with two decimals, [n >= 0]: the
    digits of the integer part, a point, and the two digits of the rest. *)
Definition two_decimals (n : Z) : string :=
  NilZero.string_of_uint (N.to_uint (Z.to_N (n / 100)))
  ^^ String "."%char
       (String (ascii_of_N (48 + Z.to_N (n mod 100 / 10)))
          (String (ascii_of_N (48 + Z.to_N (n mod 10))) EmptyString)).

(** Two answers of a query agree: the same status, the same error or order,
    and the same rows up to their order. *)
Definition same_answer (a b : query_response) : Prop :=
  q_status a = q_status b /\
  match q_body a, q_body b return Prop with
  | QueryError e, QueryError e' => e = e'
  | ProductList l, ProductList l' => Permutation l l'
  | OrderDetails o l, OrderDetails o' l' => o = o' /\ Permutation l l'
  | _, _ => False
  end.


(** * Properties *)

(** ** Ids and their spellings *)

(** Upper case, braces and missing hyphens spell the same id; text that is
    not thirty-two hexadecimal digits spells none. *)
Example uuid_spellings :
  UUID.of_text "00000000-0000-4000-8000-00000000000a" = Some 0x0000000000004000800000000000000a%N /\
  UUID.of_text "00000000-0000-4000-8000-00000000000A" = Some 0x0000000000004000800000000000000a%N /\
  UUID.of_text "0000000000004000800000000000000a" = Some 0x0000000000004000800000000000000a%N /\
  UUID.of_text "{00000000-0000-4000-8000-00000000000a}" = Some 0x0000000000004000800000000000000a%N /\
  UUID.of_text "0000-0000-0000-4000-8000-0000-0000-000a" = Some 0x0000000000004000800000000000000a%N /\
  UUID.of_text "no-such-product" = None /\
  UUID.of_text "00000000-0000-4000-8000-00000000000" = None /\
  UUID.of_text "{00000000-0000-4000-8000-00000000000a" = None /\
  UUID.of_text "0-0000000-0000-4000-8000-00000000000a" = None /\
  UUID.of_text "" = None.
Proof. vm_compute. repeat split. Qed.

(** ** The catalog under [UPDATE .. SET stock] *)

Lemma adjust_id it p : id (adjust it p) = id p.
Proof. unfold adjust; destruct (item_id it); [destruct (N.eqb _ _)|]; reflexivity. Qed.

Lemma adjust_name it p : name (adjust it p) = name p.
Proof. unfold adjust; destruct (item_id it); [destruct (N.eqb _ _)|]; reflexivity. Qed.

Lemma adjust_price it p : price (adjust it p) = price p.
Proof. unfold adjust; destruct (item_id it); [destruct (N.eqb _ _)|]; reflexivity. Qed.

Lemma adjust_barcode it p : barcode (adjust it p) = barcode p.
Proof. unfold adjust; destruct (item_id it); [destruct (N.eqb _ _)|]; reflexivity. Qed.

Lemma decrement_map it ps : decrement it ps = map (adjust it) ps.
Proof. reflexivity. Qed.

(** The [UPDATE] as the statement has it, for the id the item names. *)
Lemma decrement_item_id it pid ps :
  item_id it = Some pid ->
  decrement it ps =
  map (fun p => if N.eqb (id p) pid then set_stock (stock p - quantity it) p else p) ps.
Proof.
  intros H. unfold decrement. apply map_ext. intros p. unfold adjust.
  now rewrite H.
Qed.

Lemma lookup_decrement it ps pid :
  lookup (decrement it ps) pid = option_map (adjust it) (lookup ps pid).
Proof.
  unfold lookup. rewrite decrement_map.
  induction ps as [|p ps IH]; simpl; [reflexivity|].
  rewrite adjust_id. destruct (N.eqb (id p) pid); simpl; auto.
Qed.

Lemma lookup_item_decrement it ps it' :
  lookup_item (decrement it ps) it' = option_map (adjust it) (lookup_item ps it').
Proof.
  unfold lookup_item. destruct (item_id it'); [apply lookup_decrement|reflexivity].
Qed.

Lemma lookup_id ps pid p : lookup ps pid = Some p -> id p = pid.
Proof.
  unfold lookup. induction ps as [|q ps IH]; simpl; [discriminate|].
  destruct (N.eqb (id q) pid) eqn:E; simpl; auto.
  intros [= <-]. now apply N.eqb_eq.
Qed.

Lemma lookup_In ps pid p : lookup ps pid = Some p -> In p ps.
Proof.
  unfold lookup. induction ps as [|q ps IH]; simpl; [discriminate|].
  destruct (N.eqb (id q) pid); simpl; auto.
  intros [= <-]. now left.
Qed.

Lemma lookup_None ps pid :
  lookup ps pid = None <-> (forall p, In p ps -> id p <> pid).
Proof.
  unfold lookup. induction ps as [|q ps IH]; simpl.
  - split; [intros _ p []|reflexivity].
  - destruct (N.eqb (id q) pid) eqn:E; simpl.
    + split; [discriminate|]. intros H. apply N.eqb_eq in E.
      exfalso. exact (H q (or_introl eq_refl) E).
    + rewrite IH. apply N.eqb_neq in E. split.
      * intros H p [<-|Hp]; auto.
      * intros H p Hp. apply H. now right.
Qed.

(** An item that finds a row names, in some spelling, the id of that row. *)
Lemma lookup_item_id ps it p :
  lookup_item ps it = Some p -> item_id it = Some (id p) /\ In p ps.
Proof.
  unfold lookup_item. destruct (item_id it) as [pid|]; [|discriminate].
  intros H. split; [|eapply lookup_In; eauto].
  f_equal. symmetry. eapply lookup_id; eauto.
Qed.

Lemma lookup_item_lookup ps it pid :
  item_id it = Some pid -> lookup_item ps it = lookup ps pid.
Proof. intros H. unfold lookup_item. now rewrite H. Qed.

Lemma unit_price_decrement it ps it' :
  unit_price (decrement it ps) it' = unit_price ps it'.
Proof.
  unfold unit_price. rewrite lookup_item_decrement.
  destruct (lookup_item ps it'); simpl; [now rewrite adjust_price|reflexivity].
Qed.

Lemma resolve_decrement it ps it' :
  resolve (decrement it ps) it' = resolve ps it'.
Proof.
  unfold resolve. rewrite lookup_item_decrement.
  destruct (lookup_item ps it'); simpl; [|reflexivity].
  now rewrite adjust_id, adjust_name, adjust_price.
Qed.

Lemma subtotal_from_decrement it ps its t :
  subtotal_from (decrement it ps) its t = subtotal_from ps its t.
Proof.
  unfold subtotal_from. revert t.
  induction its as [|i its IH]; intros t; simpl; [reflexivity|].
  now rewrite unit_price_decrement, IH.
Qed.

Lemma map_resolve_decrement it ps its :
  map (resolve (decrement it ps)) its = map (resolve ps) its.
Proof. apply map_ext; intros; apply resolve_decrement. Qed.

(** ** The handler's loop against the catalog functions *)

Section Loop.

Variable env : environment.

Lemma client_query_run {A : Type} (sql : connection -> option (A * connection)) c :
  client_query env sql c =
  if fault env (issued c)
  then (Throw, mkConn (store c) (saved c) (S (issued c)))
  else match sql (mkConn (store c) (saved c) (S (issued c))) with
       | Some (a, c2) => (Normal a, c2)
       | None => (Throw, mkConn (store c) (saved c) (S (issued c)))
       end.
Proof. reflexivity. Qed.

(** [await client.query('ROLLBACK'); return res..]: the reply goes out with
    the transaction undone, unless the [ROLLBACK] itself is rejected. *)
Lemma rollback_return {A : Type} d0 c r :
  saved c = Some d0 ->
  match (client_query env SQL.ROLLBACK ;;; @return_ A r) c with
  | (Return r', c') => r' = r /\ saved c' = None /\ store c' = d0
  | (Throw, c') => saved c' = Some d0 /\ fault env (issued c) = true
  | (Normal _, _) => False
  end.
Proof.
  intros Hs. unfold bind. rewrite client_query_run.
  destruct (fault env (issued c)); simpl; [tauto|].
  unfold return_, committed; simpl. rewrite Hs. tauto.
Qed.

Lemma for_items_spec its : forall total ois c d0,
  saved c = Some d0 ->
  loop_post env d0 c its total ois (for_items env its total ois c).
Proof.
  induction its as [|it rest IH]; intros total ois c d0 Hs.
  - simpl. unfold ret, loop_post. simpl. rewrite app_nil_r. tauto.
  - cbn [for_items]. unfold bind at 1. rewrite client_query_run.
    destruct (fault env (issued c)) eqn:F0.
    { unfold loop_post. split; [assumption|]. left; eauto. }
    unfold SQL.on_store at 1, SQL.select_product_for_update.
    cbn [store saved issued].
    unfold loop_post. cbn zeta. cbn [check_stock].
    change (UUID.of_text (productId it)) with (item_id it).
    destruct (item_id it) as [pid|] eqn:Hid.
    2:{ split; [assumption|]. right. eauto. }
    unfold lookup.
    destruct (filter _ (products (store c))) as [|p rows] eqn:Hrows; cbn [hd_error].
    + pose proof (@rollback_return (float * list resolved_item) d0
                    (mkConn (store c) (saved c) (S (issued c)))
                    (json 404 (product_not_found it)) Hs) as H.
      destruct ((client_query env SQL.ROLLBACK ;;; return_ _) _) as [[[t o]|r|] c'];
        [contradiction| |].
      * destruct H as (-> & ? & ?). repeat split; auto. left; eauto.
      * destruct H; split; eauto.
    + destruct (stock p <? quantity it) eqn:Hlt.
      * pose proof (@rollback_return (float * list resolved_item) d0
                      (mkConn (store c) (saved c) (S (issued c)))
                      (json 400 (insufficient_stock env p it)) Hs) as H.
        destruct ((client_query env SQL.ROLLBACK ;;; return_ _) _) as [[[t o]|r|] c'];
          [contradiction| |].
        -- destruct H as (-> & ? & ?). repeat split; auto. right; eauto.
        -- destruct H; split; eauto.
      * unfold bind at 1. rewrite client_query_run. cbn [store saved issued].
        destruct (fault env (S (issued c))) eqn:F1.
        { split; [assumption|]. left; eauto. }
        unfold SQL.on_store at 1, SQL.update_stock.
        change (UUID.of_text (productId it)) with (item_id it). rewrite Hid.
        cbn [store saved issued].
        rewrite <- (decrement_item_id it pid) by exact Hid.
        assert (Hl : lookup_item (products (store c)) it = Some p).
        { unfold lookup_item. rewrite Hid. unfold lookup. now rewrite Hrows. }
        match goal with |- context [for_items env rest ?t ?o ?c2] =>
          specialize (IH t o c2 d0 Hs); destruct (for_items env rest t o c2)
            as [[[t' o']|r|] c'] end;
          unfold loop_post in IH;
          cbn [store products orders order_items set_products] in IH.
        -- destruct IH as (? & ? & ? & ? & ? & ? & ?).
           rewrite subtotal_from_decrement, map_resolve_decrement in *.
           repeat split; auto.
           ++ subst t'. unfold subtotal_from at 2. cbn [fold_left].
              unfold unit_price at 2. rewrite Hl. reflexivity.
           ++ subst o'. rewrite <- app_assoc. cbn [map app].
              unfold resolve at 2. rewrite Hl. reflexivity.
        -- exact IH.
        -- exact IH.
Qed.

Lemma for_orderItems_spec orderId ois : forall c d0,
  saved c = Some d0 ->
  match for_orderItems env orderId ois c with
  | (Normal _, c') =>
      saved c' = Some d0 /\
      products (store c') = products (store c) /\
      orders (store c') = orders (store c) /\
      exists rows,
        order_items (store c') = order_items (store c) ++ rows /\
        map oi_columns rows =
          map (fun oi => (orderId, Some (r_productId oi), r_quantity oi)) ois
  | (Return _, _) => False
  | (Throw, c') => saved c' = Some d0 /\ exists n, fault env n = true
  end.
Proof.
  induction ois as [|oi rest IH]; intros c d0 Hs.
  - simpl. repeat split; auto. exists []. now rewrite app_nil_r.
  - cbn [for_orderItems]. unfold bind at 1. rewrite client_query_run.
    destruct (fault env (issued c)) eqn:F0.
    { split; [assumption|eauto]. }
    unfold SQL.on_store at 1, SQL.insert_order_item.
    cbn [store saved issued].
    match goal with |- context [for_orderItems env orderId rest ?c2] =>
      specialize (IH c2 d0 Hs); destruct (for_orderItems env orderId rest c2)
        as [[[]|r|] c'] end;
      cbn [store products orders order_items] in IH; auto.
    destruct IH as (? & ? & ? & rows & Hrows & Hcols).
    repeat split; auto.
    eexists (_ :: rows). split.
    + rewrite Hrows, <- app_assoc. reflexivity.
    + cbn [map]. now rewrite Hcols.
Qed.

(** Every item of an accepted list finds its row. *)
Lemma check_stock_accepted_lookup its : forall ps ps',
  check_stock ps its = Accepted ps' ->
  forall it, In it its -> lookup_item ps it <> None.
Proof.
  induction its as [|i its IH]; intros ps ps' H it Hit; [destruct Hit|].
  cbn [check_stock] in H.
  destruct (item_id i) as [pid|] eqn:Hid; [|discriminate].
  destruct (lookup ps pid) as [p|] eqn:E; [|discriminate].
  destruct (stock p <? quantity i); [discriminate|].
  destruct Hit as [<-|Hit].
  - rewrite (lookup_item_lookup _ _ _ Hid). congruence.
  - specialize (IH _ _ H it Hit). rewrite lookup_item_decrement in IH.
    destruct (lookup_item ps it); [discriminate|]. now apply IH.
Qed.

(** The reply's entries carry the ids the items name. *)
Lemma map_resolve_productId ps its :
  (forall it, In it its -> lookup_item ps it <> None) ->
  map (fun oi => (Some (r_productId oi), r_quantity oi)) (map (resolve ps) its)
  = map (fun it => (item_id it, quantity it)) its.
Proof.
  intros H. rewrite map_map. apply map_ext_in. intros it Hit.
  unfold resolve. destruct (lookup_item ps it) eqn:E.
  - cbn [r_productId r_quantity]. f_equal.
    symmetry. now apply lookup_item_id in E as [E _].
  - now apply H in Hit.
Qed.

(** The [try] block: a reply with the tables settled, or a rejected statement
    with the tables of before still the committed ones. *)
Lemma post_orders_try_spec items d :
  match post_orders_try env items (connect d) with
  | (Normal r, c') | (Return r, c') =>
      outcome env d items r (store c') /\ saved c' = None
  | (Throw, c') =>
      committed c' = d /\
      ((exists n, fault env n = true) \/
       (array_elements items <> [] /\
        exists it, check_stock (products d) (array_elements items)
                   = InvalidProductId it))
  end.
Proof.
  unfold post_orders_try.
  unfold bind at 1. rewrite client_query_run. cbn [connect issued store saved].
  destruct (fault env 0) eqn:F0.
  { split; [reflexivity|eauto]. }
  cbn [SQL.BEGIN saved store issued].
  set (c1 := mkConn d (Some d) 1).
  assert (Hs1 : saved c1 = Some d) by reflexivity.
  destruct (negb (Array_isArray items) || (List.length (array_elements items) =? 0)%nat)
    eqn:Hbad.
  - pose proof (@rollback_return response d c1
                  (json 400 (ErrorBody "Invalid items data provided.")) Hs1) as H.
    destruct ((client_query env SQL.ROLLBACK ;;; return_ _) c1) as [[r|r|] c'];
      [contradiction| |].
    + destruct H as (-> & Hsv & ->). split; [|assumption].
      apply InvalidRequest. apply orb_true_iff in Hbad as [Hb|Hb].
      * left. now apply negb_true_iff.
      * right. apply Nat.eqb_eq in Hb. now apply length_zero_iff_nil.
    + destruct H as [Hsv Hf]. split; [|eauto].
      unfold committed. now rewrite Hsv.
  - apply orb_false_iff in Hbad as [Harr Hlen].
    apply negb_false_iff in Harr. apply Nat.eqb_neq in Hlen.
    assert (Hne : array_elements items <> []).
    { intros E. apply Hlen. now rewrite E. }
    unfold bind at 1.
    pose proof (for_items_spec (array_elements items) 0%float [] c1 d Hs1) as HL.
    destruct (for_items env (array_elements items) 0%float [] c1)
      as [[[t ois]|r|] c2]; unfold loop_post in HL; cbn [c1 store] in HL.
    + destruct HL as (Hs2 & Hchk & Hps & Hor & Hoi & -> & ->). cbn [app].
      unfold bind at 1. rewrite client_query_run.
      destruct (fault env (issued c2)) eqn:F2.
      { split; [|eauto]. unfold committed. cbn [saved]. now rewrite Hs2. }
      unfold SQL.on_store at 1, SQL.insert_order. cbn [store saved issued].
      unfold bind at 1.
      match goal with |- context [for_orderItems env ?oid ?ois ?c3] =>
        pose proof (for_orderItems_spec oid ois c3 d Hs2) as HI;
        destruct (for_orderItems env oid ois c3) as [[[]|r|] c4] end;
        cbn [store products orders order_items] in HI; [|contradiction|].
      * destruct HI as (Hs4 & Hp4 & Ho4 & rows & Hrows & Hcols).
        unfold bind at 1. rewrite client_query_run.
        destruct (fault env (issued c4)) eqn:F4.
        { split; [|eauto]. unfold committed. cbn [saved]. now rewrite Hs4. }
        cbn [SQL.COMMIT ret store saved issued].
        split; [|reflexivity].
        destruct items as [| | | | | |its]; try discriminate.
        cbn [array_elements] in *.
        match type of Ho4 with context [mkOrder ?a ?b ?c ?e] =>
          pose (o := mkOrder a b c e) end.
        change (gen_random_uuid env (S (issued c2))) with (order_id o) in Hcols |- *.
        change (pickup_code_of env (Math_random env)) with (pickup_code o).
        change (subtotal_from (products d) its 0 * (1 + tax_rate))%float
          with (total o).
        fold o in Ho4.
        replace (store c4) with
          (mkDatabase (decrement_all its (products d)) (orders d ++ [o])
                      (order_items d ++ rows)).
        2:{ destruct (store c4); simpl in *. congruence. }
        assert (Hall : forall it, In it its -> lookup_item (products d) it <> None)
          by (eapply check_stock_accepted_lookup; eauto).
        apply (Placed env d (ItemsArray its) its o rows); auto.
        -- now rewrite Hchk, Hps.
        -- rewrite Hcols.
           pose proof (map_resolve_productId (products d) its Hall) as HM.
           rewrite map_map in *.
           apply map_ext_in. intros it Hit.
           apply (f_equal (map (fun x => (order_id o, fst x, snd x)))) in HM.
           rewrite !map_map in HM. cbn [fst snd] in HM.
           unfold resolve in *. specialize (Hall it Hit).
           destruct (lookup_item (products d) it) eqn:E; [|contradiction].
           cbn [r_productId r_quantity]. f_equal. f_equal.
           symmetry. now apply lookup_item_id in E as [E _].
      * destruct HI as [Hs4 Hn]. split; [|now left].
        unfold committed. now rewrite Hs4.
    + destruct HL as (Hs2 & -> & [(it & -> & Hchk)|(p & it & -> & Hchk)]);
        (split; [|assumption]).
      * now apply UnknownProduct.
      * now apply OutOfStock.
    + destruct HL as [Hs2 Hn]. split.
      * unfold committed. now rewrite Hs2.
      * destruct Hn as [Hn|Hn]; [now left|right; now split].
Qed.

(** Every request ends in one of the six ways, outside any transaction. *)
Lemma post_orders_outcome items d :
  outcome env d items (fst (post_orders env items d))
          (store (snd (post_orders env items d)))
  /\ saved (snd (post_orders env items d)) = None.
Proof.
  unfold post_orders, try_catch.
  pose proof (post_orders_try_spec items d) as H.
  destruct (post_orders_try env items (connect d)) as [[r|r|] c']; try exact H.
  destruct H as [Hc Hn]. unfold post_orders_catch. cbn [SQL.ROLLBACK fst snd store saved].
  rewrite Hc. split; [|reflexivity].
  destruct Hn as [[n Hn]|[Hne [it Hit]]].
  - now apply StoreError with n.
  - now apply MalformedId with it.
Qed.

End Loop.

(** ** The checks, item by item *)

Lemma check_stock_app pre : forall ps rest,
  check_stock ps (pre ++ rest) =
  match check_stock ps pre with
  | Accepted ps1 => check_stock ps1 rest
  | failed => failed
  end.
Proof.
  induction pre as [|i pre IH]; intros ps rest; simpl; [reflexivity|].
  destruct (item_id i) as [pid|]; [|reflexivity].
  destruct (lookup ps pid) as [p|]; [|reflexivity].
  destruct (stock p <? quantity i); [reflexivity|]. apply IH.
Qed.

Lemma check_stock_accepted its : forall ps ps',
  check_stock ps its = Accepted ps' -> ps' = decrement_all its ps.
Proof.
  induction its as [|i its IH]; intros ps ps' H; simpl in H.
  - now injection H as <-.
  - destruct (item_id i) as [pid|]; [|discriminate].
    destruct (lookup ps pid) as [p|]; [|discriminate].
    destruct (stock p <? quantity i); [discriminate|]. now apply IH.
Qed.

(** The check of one item. *)
Lemma check_stock_cons ps it rest :
  check_stock ps (it :: rest) =
  match item_id it with
  | None => InvalidProductId it
  | Some _ =>
      match lookup_item ps it with
      | None => NotFound it
      | Some p =>
          if stock p <? quantity it then InsufficientStock p it
          else check_stock (decrement it ps) rest
      end
  end.
Proof.
  cbn [check_stock]. unfold lookup_item. now destruct (item_id it).
Qed.

(** An accepted list: every item found its product, with enough stock left
    by the items before it. *)
Lemma check_stock_prefix ps pre it post ps' :
  check_stock ps (pre ++ it :: post) = Accepted ps' ->
  check_stock ps pre = Accepted (decrement_all pre ps) /\
  exists p, lookup_item (decrement_all pre ps) it = Some p
            /\ quantity it <= stock p.
Proof.
  rewrite check_stock_app.
  destruct (check_stock ps pre) as [ps1| | |] eqn:E; try discriminate.
  apply check_stock_accepted in E as ->. rewrite check_stock_cons.
  destruct (item_id it); [|discriminate].
  destruct (lookup_item _ it) as [p|]; [|discriminate].
  destruct (stock p <? quantity it) eqn:Hlt; [discriminate|].
  intros _. split; [reflexivity|]. exists p. split; [reflexivity|].
  apply Z.ltb_ge in Hlt. exact Hlt.
Qed.

(** The first item to fail decides the verdict. *)
Lemma check_stock_first_failure ps pre it post :
  check_stock ps pre = Accepted (decrement_all pre ps) ->
  check_stock ps (pre ++ it :: post) =
  match item_id it with
  | None => InvalidProductId it
  | Some _ =>
      match lookup_item (decrement_all pre ps) it with
      | None => NotFound it
      | Some p =>
          if stock p <? quantity it then InsufficientStock p it
          else check_stock (decrement it (decrement_all pre ps)) post
      end
  end.
Proof. intros H. rewrite check_stock_app, H. apply check_stock_cons. Qed.

(** ** Order placement is all or nothing (C1) *)

Lemma outcome_status env d items r d' :
  outcome env d items r d' ->
  (status r = 200 /\
   exists its o rows,
     items = ItemsArray its /\ its <> [] /\
     check_stock (products d) its = Accepted (decrement_all its (products d)) /\
     map oi_columns rows = map (fun it => (order_id o, item_id it, quantity it)) its /\
     total o = with_tax (subtotal (products d) its) /\
     r = json 200 (OrderBody (order_id o)
                             (JS.toFixed2 (Number_digits env) (total o))
                             (pickup_code o)
                             (map (resolve (products d)) its)) /\
     d' = mkDatabase (decrement_all its (products d)) (orders d ++ [o])
                     (order_items d ++ rows))
  \/ (status r <> 200 /\ d' = d).
Proof.
  intros H. inversion H; subst; simpl.
  - left. split; [reflexivity|]. eauto 12.
  - right. split; [discriminate|reflexivity].
  - right. split; [discriminate|reflexivity].
  - right. split; [discriminate|reflexivity].
  - right. split; [discriminate|reflexivity].
  - right. split; [discriminate|reflexivity].
Qed.

Lemma decrement_ids it ps : map id (decrement it ps) = map id ps.
Proof.
  rewrite decrement_map, map_map. apply map_ext. intros; apply adjust_id.
Qed.

Lemma decrement_all_cons it its ps :
  decrement_all (it :: its) ps = decrement_all its (decrement it ps).
Proof. reflexivity. Qed.

Lemma decrement_all_ids its : forall ps, map id (decrement_all its ps) = map id ps.
Proof.
  induction its as [|it its IH]; intros ps; [reflexivity|].
  now rewrite decrement_all_cons, IH, decrement_ids.
Qed.

(** An item finds no row exactly when its [productId] is the text of no
    row's id; the [UPDATE]s of other items do not change that. *)
Lemma lookup_item_None its ps it :
  lookup_item (decrement_all its ps) it = None <->
  forall p, In p ps -> item_id it <> Some (id p).
Proof.
  unfold lookup_item. destruct (item_id it) as [pid|].
  - rewrite lookup_None. split; intros H p Hp.
    + intros [= ->]. apply (in_map id) in Hp.
      rewrite <- (decrement_all_ids its) in Hp.
      apply in_map_iff in Hp as (q & Hq & Hin). now apply (H q Hin).
    + intros Heq. apply (in_map id) in Hp. rewrite decrement_all_ids in Hp.
      apply in_map_iff in Hp as (q & Hq & Hin). apply (H q Hin). congruence.
  - split; [discriminate|reflexivity].
Qed.

(** C1. For every request, whatever the store rejects: the handler ends
    outside any transaction, and either it answers 200 and the tables hold
    every decrement, one more order and one order item per input item, or it
    answers otherwise and the tables are those of before.  An item whose
    [productId] is the id of no product, in any spelling, or whose quantity
    exceeds the stock its predecessors left, puts the request in the second
    case, whatever came before it. *)
Theorem order_placement_atomic (env : environment) (items : items_field)
    (d : database) :
  let r := fst (post_orders env items d) in
  let c' := snd (post_orders env items d) in
  saved c' = None /\
  ((status r = 200 /\
    exists its o rows,
      items = ItemsArray its /\
      store c' = mkDatabase (decrement_all its (products d)) (orders d ++ [o])
                            (order_items d ++ rows) /\
      List.length rows = List.length its)
   \/ (status r <> 200 /\ store c' = d)) /\
  (forall pre it post,
      items = ItemsArray (pre ++ it :: post) ->
      (forall p, In p (products d) -> item_id it <> Some (id p)) \/
      (exists p, lookup_item (decrement_all pre (products d)) it = Some p
                 /\ stock p < quantity it) ->
      status r <> 200 /\ store c' = d).
Proof.
  intros r c'. subst r c'.
  destruct (post_orders_outcome env items d) as [Hout Hsaved].
  apply outcome_status in Hout.
  split; [assumption|]. split.
  - destruct Hout as [[H200 (its & o & rows & Hi & _ & _ & Hcols & _ & _ & Hd)]|H];
      [left|right; exact H].
    split; [assumption|]. exists its, o, rows. repeat split; auto.
    rewrite <- (length_map oi_columns), Hcols. apply length_map.
  - intros pre it post Hitems Hfail.
    destruct Hout as [[_ (its & o & rows & Hi & _ & Hchk & _)]|H]; [|exact H].
    exfalso. rewrite Hitems in Hi. injection Hi as <-.
    apply check_stock_prefix in Hchk as (_ & p & Hp & Hle).
    destruct Hfail as [Hnone|(p' & Hp' & Hlt)].
    + apply (lookup_item_None pre) in Hnone. congruence.
    + rewrite Hp in Hp'. injection Hp' as <-. lia.
Qed.

(** ** What a placed order changes (C2) *)

Lemma set_stock_same p : set_stock (stock p) p = p.
Proof. now destruct p. Qed.

Lemma requested_cons it its pid :
  requested (it :: its) pid =
  match item_id it with
  | Some v => if N.eqb pid v then quantity it + requested its pid
              else requested its pid
  | None => requested its pid
  end.
Proof. reflexivity. Qed.

(** Each row loses what the order asks of its id, all occurrences together. *)
Lemma decrement_all_requested its : forall ps,
  decrement_all its ps =
  map (fun p => set_stock (stock p - requested its (id p)) p) ps.
Proof.
  induction its as [|it its IH]; intros ps.
  - simpl. rewrite <- (map_id ps) at 1. apply map_ext. intros p.
    now rewrite Z.sub_0_r, set_stock_same.
  - rewrite decrement_all_cons, IH, decrement_map, map_map.
    apply map_ext. intros p. rewrite requested_cons. unfold adjust.
    destruct (item_id it) as [pid|]; [|reflexivity].
    destruct (N.eqb (id p) pid); [|reflexivity].
    unfold set_stock; cbn [id name price stock barcode]. f_equal. lia.
Qed.

Lemma decrement_other it ps :
  (forall p, In p ps -> item_id it <> Some (id p)) -> decrement it ps = ps.
Proof.
  intros H. rewrite decrement_map. rewrite <- (map_id ps) at 2.
  apply map_ext_in. intros p Hp. unfold adjust.
  destruct (item_id it) as [pid|] eqn:Hid; [|reflexivity].
  destruct (N.eqb (id p) pid) eqn:E; [|reflexivity].
  apply N.eqb_eq in E. exfalso. apply (H p Hp). congruence.
Qed.

(** Under the primary key, one [UPDATE] takes the quantity off one row. *)
Lemma total_stock_decrement it ps p :
  unique_ids ps -> lookup_item ps it = Some p ->
  total_stock (decrement it ps) = total_stock ps - quantity it.
Proof.
  unfold lookup_item. destruct (item_id it) as [pid|] eqn:Hid; [|discriminate].
  unfold unique_ids, lookup.
  induction ps as [|q ps IH]; [discriminate|].
  intros Hnd Hl. inversion Hnd as [|? ? Hnotin Hnd']; subst.
  rewrite decrement_map. cbn [map total_stock fold_right].
  rewrite <- decrement_map. fold (total_stock (decrement it ps)).
  fold (total_stock ps). cbn [filter] in Hl.
  unfold adjust. rewrite Hid.
  destruct (N.eqb (id q) pid) eqn:E; cbn [stock set_stock].
  - apply N.eqb_eq in E.
    rewrite decrement_other; [lia|].
    intros p' Hp'. rewrite Hid. intros [= Heq]. apply Hnotin.
    rewrite E, Heq. now apply in_map.
  - rewrite IH; auto. lia.
Qed.

Lemma total_stock_accepted its : forall ps ps',
  unique_ids ps -> check_stock ps its = Accepted ps' ->
  total_stock ps - total_stock ps' = total_quantity its.
Proof.
  induction its as [|it its IH]; intros ps ps' Hu H.
  - injection H as <-. simpl. lia.
  - rewrite check_stock_cons in H.
    destruct (item_id it); [|discriminate].
    destruct (lookup_item ps it) as [p|] eqn:E; [|discriminate].
    destruct (stock p <? quantity it); [discriminate|].
    apply IH in H.
    + rewrite (total_stock_decrement it ps p Hu E) in H. simpl. lia.
    + unfold unique_ids. now rewrite decrement_ids.
Qed.

(** C2. A request answered 200 leaves, for every row of [products], the stock
    of before less the quantities requested of that id, under whatever
    spellings, all other columns as they were; under the primary key the
    stock taken in total is the sum of the requested quantities; and the
    tables, committed, hold exactly one new order and one new order item per
    input item, in order, carrying the order's id, the id the item names and
    the item's quantity. *)
Theorem placed_order_effects (env : environment) (items : items_field)
    (d : database)
    (Hok : status (fst (post_orders env items d)) = 200)
    (Hkey : unique_ids (products d)) :
  let c' := snd (post_orders env items d) in
  exists its o rows,
    items = ItemsArray its /\
    saved c' = None /\
    products (store c') =
      map (fun p => set_stock (stock p - requested its (id p)) p) (products d) /\
    total_stock (products d) - total_stock (products (store c'))
      = total_quantity its /\
    orders (store c') = orders d ++ [o] /\
    order_items (store c') = order_items d ++ rows /\
    List.length rows = List.length its /\
    map oi_columns rows = map (fun it => (order_id o, item_id it, quantity it)) its.
Proof.
  intros c'. subst c'.
  destruct (post_orders_outcome env items d) as [Hout Hsaved].
  apply outcome_status in Hout.
  destruct Hout as [[_ (its & o & rows & Hi & _ & Hchk & Hcols & _ & _ & Hd)]|[H _]];
    [|contradiction].
  exists its, o, rows. rewrite Hd. simpl. repeat split; auto.
  - apply decrement_all_requested.
  - now apply total_stock_accepted.
  - rewrite <- (length_map oi_columns), Hcols. apply length_map.
Qed.

(** ** Stock stays non-negative (C5) *)

Lemma lookup_unique ps pid p q :
  unique_ids ps -> lookup ps pid = Some p -> In q ps -> id q = pid -> q = p.
Proof.
  unfold unique_ids, lookup.
  induction ps as [|x ps IH]; simpl; [discriminate|].
  intros Hnd Hl Hq Hid. inversion Hnd as [|? ? Hnotin Hnd']; subst.
  destruct (N.eqb (id x) (id q)) eqn:E; simpl in Hl.
  - injection Hl as <-. destruct Hq as [->|Hq]; [reflexivity|].
    exfalso. apply Hnotin. apply N.eqb_eq in E. rewrite E. now apply in_map.
  - destruct Hq as [->|Hq]; [now rewrite N.eqb_refl in E|]. now apply IH.
Qed.

Lemma decrement_nonnegative it ps p :
  unique_ids ps -> nonnegative_stock ps ->
  lookup_item ps it = Some p -> quantity it <= stock p ->
  nonnegative_stock (decrement it ps).
Proof.
  intros Hu Hnn Hl Hle q Hq. rewrite decrement_map in Hq.
  apply in_map_iff in Hq as (q0 & <- & Hq0). unfold adjust.
  unfold lookup_item in Hl.
  destruct (item_id it) as [pid|]; [|discriminate].
  destruct (N.eqb (id q0) pid) eqn:E.
  - apply N.eqb_eq in E.
    rewrite (lookup_unique ps _ p q0 Hu Hl Hq0 E). simpl. lia.
  - now apply Hnn.
Qed.

Lemma accepted_nonnegative its : forall ps ps',
  unique_ids ps -> nonnegative_stock ps ->
  check_stock ps its = Accepted ps' -> nonnegative_stock ps'.
Proof.
  induction its as [|it its IH]; intros ps ps' Hu Hnn H.
  - simpl in H. now injection H as <-.
  - rewrite check_stock_cons in H.
    destruct (item_id it); [|discriminate].
    destruct (lookup_item ps it) as [p|] eqn:E; [|discriminate].
    destruct (stock p <? quantity it) eqn:Hlt; [discriminate|].
    apply Z.ltb_ge in Hlt.
    apply (IH (decrement it ps)); auto.
    + unfold unique_ids. now rewrite decrement_ids.
    + now apply decrement_nonnegative with p.
Qed.

(** C5. Whatever the request and whatever the store rejects, if no row of
    [products] has a negative stock before the request, none has after it,
    whether the order was placed or refused.  A repeated product id is checked
    each time against the stock its earlier occurrences left. *)
Theorem stock_never_negative (env : environment) (items : items_field)
    (d : database)
    (Hkey : unique_ids (products d))
    (Hnn : nonnegative_stock (products d)) :
  nonnegative_stock (products (committed (snd (post_orders env items d)))).
Proof.
  destruct (post_orders_outcome env items d) as [Hout Hsaved].
  unfold committed. rewrite Hsaved.
  apply outcome_status in Hout.
  destruct Hout as [[_ (its & o & rows & _ & _ & Hchk & _ & _ & _ & ->)]|[_ ->]];
    [|assumption].
  simpl. now apply (accepted_nonnegative its (products d)).
Qed.

(** ** The reply when the store rejects nothing *)

Lemma invalid_or_array items :
  (Array_isArray items = false \/ array_elements items = [])
  \/ (exists its, items = ItemsArray its /\ its <> []).
Proof.
  destruct items as [| | | | | |[|it its]]; simpl; auto.
  right. exists (it :: its). split; [reflexivity|discriminate].
Qed.

Lemma reply_without_faults env items d r d' :
  no_faults env -> outcome env d items r d' ->
  if negb (Array_isArray items) || (List.length (array_elements items) =? 0)%nat
  then r = json 400 (ErrorBody "Invalid items data provided.")
  else match check_stock (products d) (array_elements items) with
       | Accepted _ => status r = 200
       | InvalidProductId _ => r = json 500 (ErrorBody "Failed to create order")
       | NotFound it => r = json 404 (product_not_found it)
       | InsufficientStock p it => r = json 400 (insufficient_stock env p it)
       end.
Proof.
  intros Hnf H.
  inversion H as [its o rows Hi Hne Hchk Hcols Htot Hr Hd
                 |Hbad Hr Hd|it Hne Hchk Hr Hd|p it Hne Hchk Hr Hd
                 |it Hne Hchk Hr Hd|n Hn Hr Hd].
  - rewrite Hi. destruct its; [contradiction|].
    cbn [Array_isArray array_elements negb orb List.length Nat.eqb].
    now rewrite Hchk.
  - destruct Hbad as [-> | ->]; [reflexivity|]. simpl. now rewrite orb_true_r.
  - destruct items as [| | | | | |[|i its]]; try contradiction.
    cbn [Array_isArray array_elements negb orb List.length Nat.eqb].
    cbn [array_elements] in Hchk. now rewrite Hchk.
  - destruct items as [| | | | | |[|i its]]; try contradiction.
    cbn [Array_isArray array_elements negb orb List.length Nat.eqb].
    cbn [array_elements] in Hchk. now rewrite Hchk.
  - destruct items as [| | | | | |[|i its]]; try contradiction.
    cbn [Array_isArray array_elements negb orb List.length Nat.eqb].
    cbn [array_elements] in Hchk. now rewrite Hchk.
  - rewrite Hnf in Hn. discriminate.
Qed.

(** ** Insufficient stock (C4) *)

Lemma check_stock_insufficient its : forall ps p it,
  check_stock ps its = InsufficientStock p it ->
  exists pre post,
    its = pre ++ it :: post /\
    check_stock ps pre = Accepted (decrement_all pre ps) /\
    lookup_item (decrement_all pre ps) it = Some p /\
    stock p < quantity it.
Proof.
  induction its as [|i its IH]; intros ps p it H; [discriminate|].
  rewrite check_stock_cons in H.
  destruct (item_id i) as [pid|] eqn:Hid; [|discriminate].
  destruct (lookup_item ps i) as [q|] eqn:E; [|discriminate].
  destruct (stock q <? quantity i) eqn:Hlt.
  - injection H as <- <-. exists [], its. simpl. repeat split; auto.
    now apply Z.ltb_lt.
  - apply IH in H as (pre & post & -> & Hpre & Hl & Hq).
    exists (i :: pre), post. cbn [app]. rewrite check_stock_cons, Hid, E, Hlt. auto.
Qed.

(** The message for quantities a double holds exactly. *)
Lemma insufficient_stock_text env p it :
  Z.abs (stock p) < 2 ^ 53 -> Z.abs (quantity it) < 2 ^ 53 ->
  insufficient_stock env p it =
  ErrorBody ("Insufficient stock for " ^^ name p ^^ ". Available: "
             ^^ JS.Z_toString (stock p) ^^ ", Requested: "
             ^^ JS.Z_toString (quantity it)).
Proof.
  intros Hs Hq. unfold insufficient_stock, JS.Number_toString.
  apply Z.ltb_lt in Hs, Hq. now rewrite Hs, Hq.
Qed.

(** C4. When the store rejects no statement, the reply is the 400 of
    insufficient stock exactly when some item, all items before it having
    been accepted, asks more than the stock those items left of the product
    it names; the reply names that product and item, and the tables are
    those of before.  A request for exactly the stock of a product is
    answered 200. *)
Theorem insufficient_stock_iff (env : environment) (items : items_field)
    (d : database)
    (Hcalm : no_faults env) :
  let r := fst (post_orders env items d) in
  let c' := snd (post_orders env items d) in
  ((exists p it, r = json 400 (insufficient_stock env p it)) <->
   (exists pre it post p,
      items = ItemsArray (pre ++ it :: post) /\
      check_stock (products d) pre = Accepted (decrement_all pre (products d)) /\
      lookup_item (decrement_all pre (products d)) it = Some p /\
      stock p < quantity it)) /\
  (forall pre it post p,
      items = ItemsArray (pre ++ it :: post) ->
      check_stock (products d) pre = Accepted (decrement_all pre (products d)) ->
      lookup_item (decrement_all pre (products d)) it = Some p ->
      stock p < quantity it ->
      r = json 400 (insufficient_stock env p it) /\ store c' = d /\ saved c' = None) /\
  (forall it p,
      items = ItemsArray [it] ->
      lookup_item (products d) it = Some p ->
      quantity it = stock p ->
      status r = 200).
Proof.
  intros r c'. subst r c'.
  destruct (post_orders_outcome env items d) as [Hout Hsaved].
  pose proof (reply_without_faults _ _ _ _ _ Hcalm Hout) as Hr.
  assert (Hback : forall pre it post p,
      items = ItemsArray (pre ++ it :: post) ->
      check_stock (products d) pre = Accepted (decrement_all pre (products d)) ->
      lookup_item (decrement_all pre (products d)) it = Some p ->
      stock p < quantity it ->
      fst (post_orders env items d) = json 400 (insufficient_stock env p it)
      /\ store (snd (post_orders env items d)) = d
      /\ saved (snd (post_orders env items d)) = None).
  { intros pre it post p Hi Hpre Hl Hlt. rewrite Hi in Hr.
    cbn [Array_isArray array_elements negb orb] in Hr.
    replace (List.length (pre ++ it :: post) =? 0)%nat with false in Hr
      by (symmetry; apply Nat.eqb_neq; rewrite length_app; simpl; lia).
    rewrite (check_stock_first_failure _ _ _ _ Hpre), Hl in Hr.
    destruct (lookup_item_id _ _ _ Hl) as [Hid _]. rewrite Hid in Hr.
    apply Z.ltb_lt in Hlt. rewrite Hlt in Hr. rewrite <- Hi in *.
    split; [assumption|]. split; [|assumption].
    apply outcome_status in Hout as [[H200 _]|[_ Hd]]; [|assumption].
    rewrite Hr in H200. discriminate. }
  split; [split|split].
  - intros (p & it & Heq). rewrite Heq in Hr.
    destruct (negb (Array_isArray items) || _) eqn:Hbad.
    { unfold insufficient_stock in Hr. cbn [String.append] in Hr. discriminate Hr. }
    destruct (check_stock (products d) (array_elements items))
      as [ps'|it'|it'|p' it'] eqn:Hchk; try discriminate.
    apply check_stock_insufficient in Hchk as (pre & post & Hi & Hrest).
    exists pre, it', post, p'. split; [|assumption].
    destruct items; try discriminate. simpl in Hi. now rewrite Hi.
  - intros (pre & it & post & p & Hi & Hpre & Hl & Hlt).
    exists p, it. eapply Hback; eauto.
  - exact Hback.
  - intros it p Hi Hl Hq. rewrite Hi in Hr.
    cbn [Array_isArray array_elements negb orb List.length Nat.eqb] in Hr.
    rewrite check_stock_cons, Hl in Hr.
    destruct (lookup_item_id _ _ _ Hl) as [Hid _]. rewrite Hid in Hr.
    rewrite Hq, Z.ltb_irrefl in Hr. rewrite Hi. exact Hr.
Qed.

(** ** Requests without a usable item list (C6) *)

(** C6. A request whose [items] is absent, is not an array, or is the empty
    array changes no table and creates no order, whatever the store rejects;
    the reply is the 400 with the JSON error body when the store rejects no
    statement, and the generic 500 otherwise. *)
Theorem invalid_request_rejected (env : environment) (items : items_field)
    (d : database)
    (Hbad : Array_isArray items = false \/ items = ItemsArray []) :
  let r := fst (post_orders env items d) in
  let c' := snd (post_orders env items d) in
  store c' = d /\ saved c' = None /\
  (r = json 400 (ErrorBody "Invalid items data provided.") \/
   (r = json 500 (ErrorBody "Failed to create order") /\ ~ no_faults env)) /\
  (no_faults env -> r = json 400 (ErrorBody "Invalid items data provided.")).
Proof.
  intros r c'. subst r c'.
  destruct (post_orders_outcome env items d) as [Hout Hsaved].
  assert (Hif : negb (Array_isArray items)
                || (List.length (array_elements items) =? 0)%nat = true).
  { destruct Hbad as [-> | ->]; reflexivity. }
  assert (Hno : forall its, items = ItemsArray its -> its = []).
  { intros its E. destruct Hbad as [H| ->]; [rewrite E in H; discriminate|].
    now injection E as <-. }
  assert (Hempty : array_elements items = []).
  { destruct items as [| | | | | |its]; try reflexivity. exact (Hno its eq_refl). }
  repeat split.
  - apply outcome_status in Hout
      as [[_ (its & o & rows & Hi & Hne & _)]|[_ Hd]]; [|assumption].
    now apply Hno in Hi.
  - assumption.
  - inversion Hout as [its o rows Hi Hne Hchk Hcols Htot Hr Hd
                      |Hb Hr Hd|it Hne Hchk Hr Hd|p it Hne Hchk Hr Hd
                      |it Hne Hchk Hr Hd|n Hn Hr Hd].
    + now apply Hno in Hi.
    + now left.
    + contradiction.
    + contradiction.
    + contradiction.
    + right. split; [reflexivity|]. intros Hnf. rewrite Hnf in Hn. discriminate.
  - intros Hnf. pose proof (reply_without_faults _ _ _ _ _ Hnf Hout) as Hr.
    now rewrite Hif in Hr.
Qed.

(** ** Quantities of persisted order items (C7) *)

(** C7, as the handler has it.  An order item is persisted with the quantity
    the request gave, and a request is answered 200 only if each quantity is
    at most the stock its predecessors left of the product the item names:
    the one bound the handler checks.  Nothing requires the quantity to be
    positive. *)
Theorem persisted_quantity_within_stock (env : environment)
    (items : items_field) (d : database)
    (Hok : status (fst (post_orders env items d)) = 200) :
  exists its rows,
    items = ItemsArray its /\
    order_items (committed (snd (post_orders env items d))) = order_items d ++ rows /\
    map oi_quantity rows = map quantity its /\
    forall pre it post,
      its = pre ++ it :: post ->
      exists p, lookup_item (decrement_all pre (products d)) it = Some p
                /\ quantity it <= stock p.
Proof.
  destruct (post_orders_outcome env items d) as [Hout Hsaved].
  unfold committed. rewrite Hsaved.
  apply outcome_status in Hout
    as [[_ (its & o & rows & Hi & _ & Hchk & Hcols & _ & _ & ->)]|[H _]];
    [|contradiction].
  exists its, rows. simpl. repeat split; auto.
  - apply (f_equal (map snd)) in Hcols. rewrite !map_map in Hcols. exact Hcols.
  - intros pre it post ->. now apply check_stock_prefix in Hchk.
Qed.

(** ** The total of a placed order (C3) *)

(** [round_half_up] is rounding to nearest: [n - 1/2 <= m / 2^k < n + 1/2]. *)
Lemma round_half_up_nearest m k :
  let n := JS.round_half_up m (Zneg k) in
  let D := Z.pow_pos 2 k in
  2 * D * n - D <= 2 * m < 2 * D * n + D.
Proof.
  intros n D. subst n. unfold JS.round_half_up. fold D.
  assert (HD : 0 < D).
  { unfold D. rewrite Z.pow_pos_fold. now apply Z.pow_pos_nonneg. }
  pose proof (Z.div_mod (2 * m + D) (2 * D) ltac:(lia)).
  pose proof (Z.mod_pos_bound (2 * m + D) (2 * D) ltac:(lia)).
  lia.
Qed.




(** The digits of a non-negative integer. *)
Lemma Z_toString_nonneg z :
  0 <= z -> JS.Z_toString z = NilZero.string_of_uint (N.to_uint (Z.to_N z)).
Proof. intros Hz. destruct z; [reflexivity|reflexivity|lia]. Qed.

(** The last two characters of the fixed-point text are the two decimals. *)
Lemma two_digits_spec z :
  0 <= z < 100 ->
  JS.two_digits z =
  String (ascii_of_N (48 + Z.to_N (z / 10)))
         (String (ascii_of_N (48 + Z.to_N (z mod 10))) "").
Proof.
  intros Hz.
  assert (Hn : exists n, (n < 100)%nat /\ z = Z.of_nat n)
    by (exists (Z.to_nat z); lia).
  destruct Hn as (n & Hn & ->). clear Hz.
  do 100 (destruct n as [|n]; [vm_compute; reflexivity|]). lia.
Qed.

Lemma render_hundredths_two_decimals n :
  0 <= n -> JS.render_hundredths n = two_decimals n.
Proof.
  intros Hn. unfold JS.render_hundredths, two_decimals.
  rewrite Z_toString_nonneg by (apply Z.div_pos; lia).
  rewrite two_digits_spec by (apply Z.mod_pos_bound; lia).
  replace ((n mod 100) mod 10) with (n mod 10); [reflexivity|].
  Z.div_mod_to_equations. lia.
Qed.

(** [toFixed(2)] writes the hundredth nearest to the double, the larger one
    on a tie: for a positive [x = m / 2^k] below [1e21] the text is that of
    the [n] with [n - 1/2 <= 100 * x < n + 1/2]. *)
Lemma toFixed2_nearest_hundredth large x m k :
  Prim2SF x = S754_finite false m (Zneg k) ->
  Zpos m / Z.pow_pos 2 k < 10 ^ 21 ->
  exists n,
    JS.toFixed2 large x = two_decimals n /\ 0 <= n /\
    2 * Z.pow_pos 2 k * n - Z.pow_pos 2 k
      <= 2 * (100 * Zpos m) < 2 * Z.pow_pos 2 k * n + Z.pow_pos 2 k.
Proof.
  intros Hx Hsmall. unfold JS.toFixed2. rewrite Hx. cbn [String.append].
  unfold JS.integer_part.
  replace (10 ^ 21 <=? Z.pos m / Z.pow_pos 2 k) with false
    by (symmetry; apply Z.leb_gt; exact Hsmall).
  pose proof (round_half_up_nearest (100 * Zpos m) k) as Hn. cbv zeta in Hn.
  assert (HD : 0 < Z.pow_pos 2 k).
  { rewrite Z.pow_pos_fold. now apply Z.pow_pos_nonneg. }
  exists (JS.round_half_up (100 * Zpos m) (Zneg k)).
  assert (Hpos : 0 <= JS.round_half_up (100 * Zpos m) (Zneg k)) by nia.
  split; [now apply render_hundredths_two_decimals|]. split; assumption.
Qed.




(** ** Lookup by barcode (C8) *)

Lemma has_barcode_iff b p : has_barcode b p = true <-> barcode p = Some b.
Proof.
  unfold has_barcode. destruct (barcode p) as [b'|].
  - rewrite String.eqb_eq. split; [now intros ->|now intros [= ->]].
  - split; discriminate.
Qed.

(** C8. When the store rejects nothing, the reply is the 404 with the JSON
    error body if and only if no row of [products] has the barcode; otherwise
    it is the 200 with a row that has it, the only such row under the
    [UNIQUE] constraint. *)
Theorem barcode_lookup (env : environment) (b : string) (d : database)
    (Hcalm : no_faults env)
    (Huniq : unique_barcodes (products d)) :
  let r := get_product_by_barcode env b d in
  (r = json 404 (ErrorBody "Product not found") <->
   forall p, In p (products d) -> barcode p <> Some b) /\
  (status r = 404 <-> forall p, In p (products d) -> barcode p <> Some b) /\
  (forall p, In p (products d) -> barcode p = Some b ->
             r = json 200 (ProductBody p)).
Proof.
  intros r. subst r. unfold get_product_by_barcode. rewrite Hcalm.
  unfold SQL.select_products_by_barcode. fold (has_barcode b).
  destruct (filter (has_barcode b) (products d)) as [|q rows] eqn:Hrows.
  - assert (Hnone : forall p, In p (products d) -> barcode p <> Some b).
    { intros p Hp Hb. apply has_barcode_iff in Hb.
      assert (Hin : In p (filter (has_barcode b) (products d)))
        by (apply filter_In; auto).
      rewrite Hrows in Hin. destruct Hin. }
    repeat split; auto. intros p Hp Hb. now apply Hnone in Hp.
  - assert (Hq : In q (products d) /\ has_barcode b q = true).
    { apply filter_In. rewrite Hrows. now left. }
    destruct Hq as [Hq Hqb]. apply has_barcode_iff in Hqb.
    repeat split; try discriminate.
    + intros H. now apply H in Hq.
    + intros H. now apply H in Hq.
    + intros p Hp Hb. now rewrite (Huniq p q b Hp Hq Hb Hqb).
Qed.

(** ** Seeding *)

Lemma existsb_false {A : Type} (f : A -> bool) l :
  existsb f l = false <-> forall x, In x l -> f x = false.
Proof.
  induction l as [|a l IH]; simpl.
  - split; [intros _ x []|reflexivity].
  - rewrite orb_false_iff, IH. split.
    + intros [Ha Hl] x [<-|Hx]; auto.
    + intros H. split; [apply H; now left|intros x Hx; apply H; now right].
Qed.

Lemma named_iff s p : named s p = true <-> name p = s_name s.
Proof. apply String.eqb_eq. Qed.

Lemma named_false_iff s p : named s p = false <-> name p <> s_name s.
Proof. apply String.eqb_neq. Qed.

(** The two ways the upsert of one row succeeds. *)
Lemma upsert_cases new_id s ps ps' :
  upsert new_id s ps = Some ps' ->
  (existsb (named s) ps = true /\
   ps' = map (overwrite s) ps /\
   forall p, In p ps -> barcode p = Some (s_barcode s) -> name p = s_name s)
  \/
  (existsb (named s) ps = false /\
   ps' = ps ++ [sample_row new_id s] /\
   (forall p, In p ps -> id p <> new_id) /\
   forall p, In p ps -> barcode p <> Some (s_barcode s)).
Proof.
  unfold upsert. fold (named s).
  destruct (existsb (named s) ps) eqn:Hex.
  - match goal with |- (if ?b then _ else _) = _ -> _ => destruct b eqn:Hbar end;
      [intros H; discriminate H|].
    intros [= <-]. left. repeat split; auto.
    intros p Hp Hb. rewrite existsb_false in Hbar. specialize (Hbar p Hp).
    apply has_barcode_iff in Hb. rewrite Hb, andb_true_r in Hbar.
    apply negb_false_iff in Hbar. now apply String.eqb_eq in Hbar.
  - match goal with |- (if ?b then _ else _) = _ -> _ => destruct b eqn:Hchk end;
      [intros H; discriminate H|].
    apply orb_false_iff in Hchk as [Hid Hbar].
    intros [= <-]. right. repeat split; auto.
    + intros p Hp Heq. rewrite existsb_false in Hid. specialize (Hid p Hp).
      rewrite Heq, N.eqb_refl in Hid. discriminate.
    + intros p Hp Hb. rewrite existsb_false in Hbar. specialize (Hbar p Hp).
      apply has_barcode_iff in Hb. congruence.
Qed.

Lemma overwrite_name s p : name (overwrite s p) = name p.
Proof. unfold overwrite. now destruct (named s p). Qed.

Lemma overwrite_id s p : id (overwrite s p) = id p.
Proof. unfold overwrite. now destruct (named s p). Qed.

Lemma upsert_settles new_id s ps ps' :
  upsert new_id s ps = Some ps' -> settled s ps'.
Proof.
  intros H. apply upsert_cases in H as [(Hex & -> & Hbar)|(Hex & -> & Hid & Hbar)].
  - apply existsb_exists in Hex as (p0 & Hp0 & Hn0). apply named_iff in Hn0.
    split; [|split].
    + exists (overwrite s p0). split; [now apply in_map|].
      now rewrite overwrite_name.
    + intros p Hp Hn. apply in_map_iff in Hp as (q & <- & Hq).
      rewrite overwrite_name in Hn. unfold overwrite.
      apply named_iff in Hn. rewrite Hn. simpl. auto.
    + intros p Hp Hb. apply in_map_iff in Hp as (q & <- & Hq).
      rewrite overwrite_name. unfold overwrite in Hb.
      destruct (named s q) eqn:Hn; [now apply named_iff|]. eauto.
  - split; [|split].
    + exists (sample_row new_id s). split; [|reflexivity].
      apply in_or_app. right. now left.
    + intros p Hp Hn. apply in_app_or in Hp as [Hp|[<-|[]]]; [|simpl; auto].
      rewrite existsb_false in Hex. apply Hex in Hp.
      apply named_false_iff in Hp. contradiction.
    + intros p Hp Hb. apply in_app_or in Hp as [Hp|[<-|[]]]; [|reflexivity].
      now apply Hbar in Hp.
Qed.

Lemma upsert_keeps_settled new_id s s' ps ps' :
  settled s ps -> s_name s' <> s_name s -> s_barcode s' <> s_barcode s ->
  upsert new_id s' ps = Some ps' -> settled s ps'.
Proof.
  intros ((p0 & Hp0 & Hn0) & Hval & Hbar) Hname Hcode H.
  assert (Hsame : forall p, name p = s_name s -> overwrite s' p = p).
  { intros p Hn. unfold overwrite.
    destruct (named s' p) eqn:E; [|reflexivity].
    apply named_iff in E. congruence. }
  apply upsert_cases in H as [(Hex & -> & _)|(Hex & -> & _ & _)].
  - split; [|split].
    + exists p0. split; [|assumption]. rewrite <- (Hsame p0 Hn0). now apply in_map.
    + intros p Hp Hn. apply in_map_iff in Hp as (q & <- & Hq).
      rewrite overwrite_name in Hn. rewrite (Hsame q Hn). auto.
    + intros p Hp Hb. apply in_map_iff in Hp as (q & <- & Hq).
      rewrite overwrite_name. unfold overwrite in Hb.
      destruct (named s' q); [|auto]. simpl in Hb. congruence.
  - split; [|split].
    + exists p0. split; [|assumption]. apply in_or_app. now left.
    + intros p Hp Hn. apply in_app_or in Hp as [Hp|[<-|[]]]; [auto|].
      simpl in Hn. contradiction.
    + intros p Hp Hb. apply in_app_or in Hp as [Hp|[<-|[]]]; [auto|].
      simpl in Hb. congruence.
Qed.

Lemma excluded_settled s p :
  price p = s_price s -> stock p = s_stock s -> barcode p = Some (s_barcode s) ->
  excluded s p = p.
Proof. destruct p; simpl; intros -> -> ->; reflexivity. Qed.

(** On a catalog that already holds the sample, its upsert changes nothing. *)
Lemma upsert_settled new_id s ps : settled s ps -> upsert new_id s ps = Some ps.
Proof.
  intros ((p0 & Hp0 & Hn0) & Hval & Hbar). unfold upsert. fold (named s).
  replace (existsb (named s) ps) with true.
  2:{ symmetry. apply existsb_exists. exists p0. split; [assumption|].
      now apply named_iff. }
  replace (existsb _ ps) with false.
  2:{ symmetry. apply existsb_false. intros p Hp.
      destruct (has_barcode (s_barcode s) p) eqn:Hb; [|apply andb_false_r].
      apply has_barcode_iff in Hb. apply Hbar in Hb; [|assumption].
      apply named_iff in Hb. unfold named in Hb. now rewrite Hb. }
  f_equal. rewrite <- (map_id ps) at 2. apply map_ext_in. intros p Hp.
  fold (named s p). destruct (named s p) eqn:Hn; [|reflexivity].
  apply named_iff in Hn. destruct (Hval p Hp Hn) as (? & ? & ?).
  now apply excluded_settled.
Qed.

Lemma upsert_all_keeps_settled s ss : forall ids n ps ps',
  settled s ps ->
  (forall s', In s' ss -> s_name s' <> s_name s /\ s_barcode s' <> s_barcode s) ->
  upsert_all ids n ss ps = Some ps' -> settled s ps'.
Proof.
  induction ss as [|s' ss IH]; intros ids n ps ps' Hs Hd H; simpl in H.
  - now injection H as <-.
  - destruct (upsert (ids n) s' ps) as [ps1|] eqn:E; [|discriminate].
    destruct (Hd s' (or_introl eq_refl)) as [Hn Hb].
    apply (IH ids (S n) ps1 ps'); auto.
    + now apply (upsert_keeps_settled (ids n) s s' ps).
    + intros s'' Hin. apply Hd. now right.
Qed.

(** After the statement every sample is held by the catalog. *)
Lemma upsert_all_settles ss : forall ids n ps ps',
  NoDup (map s_name ss) -> NoDup (map s_barcode ss) ->
  upsert_all ids n ss ps = Some ps' ->
  forall s, In s ss -> settled s ps'.
Proof.
  induction ss as [|s0 ss IH]; intros ids n ps ps' Hnames Hcodes H s Hin;
    [destruct Hin|].
  simpl in H. destruct (upsert (ids n) s0 ps) as [ps1|] eqn:E; [|discriminate].
  inversion Hnames as [|? ? Hn0 Hnames']; inversion Hcodes as [|? ? Hc0 Hcodes']; subst.
  destruct Hin as [<-|Hin].
  - apply (upsert_all_keeps_settled s0 ss ids (S n) ps1 ps'); auto.
    + now apply upsert_settles in E.
    + intros s' Hs'. split; intros Heq.
      * apply Hn0. rewrite <- Heq. now apply in_map.
      * apply Hc0. rewrite <- Heq. now apply in_map.
  - now apply (IH ids (S n) ps1 ps').
Qed.

(** On a catalog that holds every sample, the statement changes nothing. *)
Lemma upsert_all_settled ss : forall ids n ps,
  (forall s, In s ss -> settled s ps) -> upsert_all ids n ss ps = Some ps.
Proof.
  induction ss as [|s ss IH]; intros ids n ps H; simpl; [reflexivity|].
  rewrite upsert_settled by (apply H; now left).
  apply IH. intros s' Hs'. apply H. now right.
Qed.

Lemma upsert_names new_id s ps ps' :
  upsert new_id s ps = Some ps' -> unique_names ps -> unique_names ps'.
Proof.
  unfold unique_names.
  intros H Hu. apply upsert_cases in H as [(Hex & -> & _)|(Hex & -> & _ & _)].
  - rewrite map_map. erewrite map_ext; [exact Hu|]. intros; apply overwrite_name.
  - rewrite map_app. simpl. rewrite existsb_false in Hex.
    assert (Hnot : ~ In (s_name s) (map name ps)).
    { intros Hin. apply in_map_iff in Hin as (p & Hn & Hp).
      apply Hex in Hp. apply named_false_iff in Hp. contradiction. }
    clear Hex. induction ps as [|q ps IHps]; simpl in *.
    + constructor; [intros []|constructor].
    + inversion Hu; subst. constructor.
      * rewrite in_app_iff. simpl. intros [Hin|[Heq|[]]]; [contradiction|].
        apply Hnot. now left.
      * apply IHps; auto.
Qed.

Lemma upsert_all_names ss : forall ids n ps ps',
  upsert_all ids n ss ps = Some ps' -> unique_names ps -> unique_names ps'.
Proof.
  induction ss as [|s ss IH]; intros ids n ps ps' H Hu; simpl in H.
  - now injection H as <-.
  - destruct (upsert (ids n) s ps) as [ps1|] eqn:E; [|discriminate].
    apply (IH ids (S n) ps1 ps' H). now apply (upsert_names (ids n) s ps).
Qed.

(** With unique names, the rows of one name are a single row. *)
Lemma one_row_per_name s ps :
  unique_names ps -> (exists p, In p ps /\ name p = s_name s) ->
  exists p, filter (named s) ps = [p].
Proof.
  unfold unique_names. induction ps as [|q ps IH]; intros Hu (p & Hp & Hn).
  - destruct Hp.
  - inversion Hu as [|? ? Hnot Hu']; subst. simpl.
    destruct (named s q) eqn:Hq.
    + exists q. f_equal. apply named_iff in Hq.
      assert (Hnone : forall x, In x ps -> named s x = false).
      { intros x Hx. apply named_false_iff. intros Hxn. apply Hnot.
        rewrite Hq, <- Hxn. now apply in_map. }
      clear -Hnone. induction ps as [|x ps IHps]; [reflexivity|]. simpl.
      rewrite (Hnone x) by now left. apply IHps. intros y Hy. apply Hnone. now right.
    + destruct Hp as [->|Hp].
      * apply named_iff in Hn. congruence.
      * apply IH; eauto.
Qed.

Lemma sample_names_distinct : NoDup (map s_name sample_products).
Proof.
  simpl. repeat (constructor; [simpl; intuition discriminate|]). constructor.
Qed.

Lemma sample_barcodes_distinct : NoDup (map s_barcode sample_products).
Proof.
  simpl. repeat (constructor; [simpl; intuition discriminate|]). constructor.
Qed.

Lemma initDB_products env d d' :
  initDB env d = Some d' ->
  upsert_all (gen_random_uuid env) 0 sample_products (products d) = Some (products d')
  /\ orders d' = orders d /\ order_items d' = order_items d.
Proof.
  unfold initDB. destruct (fault env 0 || _ || _ || _); [discriminate|].
  destruct (upsert_all _ 0 _ _) as [ps|]; [|discriminate].
  intros [= <-]. auto.
Qed.

(** ** Seeding twice is seeding once (C9) *)

(** C9. After a run of the seed step on a catalog with unique names, every
    sample name has exactly one row, carrying the sample's price, stock and
    barcode; a second run, whatever ids and time it draws, leaves the tables
    exactly as the first did, and completes whenever the store rejects none
    of its statements. *)
Theorem seeding_idempotent (env env' : environment) (d d1 : database)
    (Hrun : initDB env d = Some d1)
    (Hnames : unique_names (products d)) :
  (forall s, In s sample_products ->
     exists p, filter (named s) (products d1) = [p] /\
               price p = s_price s /\ stock p = s_stock s /\
               barcode p = Some (s_barcode s)) /\
  (forall d2, initDB env' d1 = Some d2 -> d2 = d1) /\
  (no_faults env' -> initDB env' d1 = Some d1).
Proof.
  apply initDB_products in Hrun as (Hup & _ & _).
  assert (Hset : forall s, In s sample_products -> settled s (products d1)).
  { eapply upsert_all_settles; eauto using sample_names_distinct,
      sample_barcodes_distinct. }
  assert (Hfix : forall e, upsert_all (gen_random_uuid e) 0 sample_products
                             (products d1) = Some (products d1)).
  { intros e. now apply upsert_all_settled. }
  split; [|split].
  - intros s Hs. destruct (Hset s Hs) as (Hex & Hval & _).
    destruct (one_row_per_name s (products d1)) as [p Hp]; auto.
    { eapply upsert_all_names; eauto. }
    exists p. split; [assumption|].
    assert (Hin : In p (filter (named s) (products d1))) by (rewrite Hp; now left).
    apply filter_In in Hin as [Hin Hn]. apply named_iff in Hn. auto.
  - intros d2. unfold initDB. destruct (fault env' 0 || _ || _ || _); [discriminate|].
    rewrite Hfix. intros [= <-]. now destruct d1.
  - intros Hnf. unfold initDB. rewrite !Hnf. cbn [orb]. rewrite Hfix.
    now destruct d1.
Qed.

(** ** Seeding overwrites (C10) *)

Lemma refresh_cons_named s ss p :
  named s p = true -> refresh (s :: ss) p = excluded s p.
Proof. intros H. unfold refresh. simpl. now rewrite H. Qed.

Lemma refresh_cons_other s ss p :
  named s p = false -> refresh (s :: ss) p = refresh ss p.
Proof. intros H. unfold refresh. simpl. now rewrite H. Qed.

Lemma refresh_not_named ss p :
  (forall s, In s ss -> name p <> s_name s) -> refresh ss p = p.
Proof.
  intros H. unfold refresh.
  destruct (find (fun s => named s p) ss) as [s|] eqn:E; [|reflexivity].
  apply find_some in E as [Hs Hn]. apply named_iff in Hn. now apply H in Hs.
Qed.

Lemma refresh_named ss s p :
  NoDup (map s_name ss) -> In s ss -> name p = s_name s ->
  refresh ss p = excluded s p.
Proof.
  induction ss as [|s0 ss IH]; intros Hnd Hin Hn; [destruct Hin|].
  inversion Hnd as [|? ? Hnot Hnd']; subst.
  destruct Hin as [->|Hin].
  - apply refresh_cons_named. now apply named_iff.
  - rewrite refresh_cons_other; [now apply IH|].
    apply named_false_iff. intros Heq. apply Hnot.
    rewrite <- Heq, Hn. now apply in_map.
Qed.

(** The statement as a whole: every row that was there is refreshed in place,
    and rows are added, at the end, for the sample names that were missing. *)
Lemma upsert_all_structure ss : forall ids n ps ps',
  NoDup (map s_name ss) ->
  upsert_all ids n ss ps = Some ps' ->
  exists added,
    ps' = map (refresh ss) ps ++ added /\
    forall a, In a added ->
      exists s, In s ss /\ name a = s_name s /\ price a = s_price s /\
                stock a = s_stock s /\ barcode a = Some (s_barcode s) /\
                forall p, In p ps -> name p <> s_name s.
Proof.
  induction ss as [|s ss IH]; intros ids n ps ps' Hnd H; simpl in H.
  - injection H as <-. exists []. rewrite app_nil_r. split; [|intros a []].
    rewrite <- (map_id ps) at 1. apply map_ext. intros p. reflexivity.
  - destruct (upsert (ids n) s ps) as [ps1|] eqn:E; [|discriminate].
    inversion Hnd as [|? ? Hnot Hnd']; subst.
    assert (Hkeep : forall q, name q = s_name s -> refresh ss q = q).
    { intros q Hq. apply refresh_not_named. intros s' Hs' Heq. apply Hnot.
      rewrite <- Hq, Heq. now apply in_map. }
    destruct (IH ids (S n) ps1 ps' Hnd' H) as (added & -> & Hadded).
    apply upsert_cases in E as [(Hex & -> & _)|(Hex & -> & _ & _)].
    + exists added. split.
      * f_equal. rewrite map_map. apply map_ext. intros p. unfold overwrite.
        destruct (named s p) eqn:Hn.
        -- rewrite refresh_cons_named by assumption. apply Hkeep. simpl.
           now apply named_iff.
        -- now rewrite refresh_cons_other.
      * intros a Ha. destruct (Hadded a Ha) as (s' & Hs' & Hn & Hp & Hst & Hb & Hno).
        exists s'. split; [now right|]. do 4 (split; [assumption|]).
        intros p Hp' Heq. apply (Hno (overwrite s p)); [now apply in_map|].
        now rewrite overwrite_name.
    + rewrite existsb_false in Hex.
      exists (sample_row (ids n) s :: added). split.
      * rewrite map_app, <- app_assoc. simpl. f_equal.
        -- apply map_ext_in. intros p Hp. now rewrite refresh_cons_other by auto.
        -- f_equal. apply Hkeep. reflexivity.
      * intros a [<-|Ha].
        -- exists s. split; [now left|]. do 4 (split; [reflexivity|]).
           intros p Hp. apply named_false_iff. auto.
        -- destruct (Hadded a Ha) as (s' & Hs' & Hn & Hp & Hst & Hb & Hno).
           exists s'. split; [now right|]. do 4 (split; [assumption|]).
           intros p Hp'. apply Hno. apply in_or_app. now left.
Qed.

(** C10. A run of the seed step keeps every row of [products] in place with
    its id and name; a row named like a sample gets that sample's price,
    stock and barcode whatever it held before, so Milk is back at 50; a row
    of any other name is untouched; rows are added only for sample names the
    catalog lacked; [orders] and [order_items] are untouched. *)
Theorem seeding_overwrites (env : environment) (d d' : database)
    (Hrun : initDB env d = Some d') :
  (exists added,
     products d' = map (refresh sample_products) (products d) ++ added /\
     forall a, In a added ->
       exists s, In s sample_products /\ a = sample_row (id a) s /\
                 forall p, In p (products d) -> name p <> s_name s) /\
  (forall p s, In s sample_products -> name p = s_name s ->
     refresh sample_products p
     = mkProduct (id p) (name p) (s_price s) (s_stock s) (Some (s_barcode s))) /\
  (forall p, (forall s, In s sample_products -> name p <> s_name s) ->
     refresh sample_products p = p) /\
  (forall p, In p (products d') -> name p = "Milk" ->
     price p = 300 /\ stock p = 50 /\ barcode p = Some "1234567890") /\
  orders d' = orders d /\ order_items d' = order_items d.
Proof.
  apply initDB_products in Hrun as (Hup & Hor & Hoi).
  split; [|split; [|split; [|split]]].
  - destruct (upsert_all_structure _ _ _ _ _ sample_names_distinct Hup)
      as (added & Heq & Hadded).
    exists added. split; [assumption|].
    intros a Ha. destruct (Hadded a Ha) as (s & Hs & Hn & Hp & Hst & Hb & Hno).
    exists s. split; [assumption|]. split; [|assumption].
    destruct a; simpl in *. unfold sample_row. simpl. congruence.
  - intros p s Hs Hn. now apply refresh_named; [apply sample_names_distinct| |].
  - apply refresh_not_named.
  - intros p Hp Hn.
    assert (Hset : settled (mkSample "Milk" 300 50 "1234567890") (products d')).
    { eapply upsert_all_settles; eauto using sample_names_distinct,
        sample_barcodes_distinct. now left. }
    destruct Hset as (_ & Hval & _). exact (Hval p Hp Hn).
  - auto.
Qed.

(** ** When the seed step completes *)

Lemma upsert_succeeds new_id s ps :
  (forall p, In p ps -> barcode p = Some (s_barcode s) -> name p = s_name s) ->
  (forall p, In p ps -> id p <> new_id) ->
  exists ps', upsert new_id s ps = Some ps'.
Proof.
  intros Hbar Hid. unfold upsert. fold (named s).
  destruct (existsb (named s) ps) eqn:Hex.
  - replace (existsb _ ps) with false; [eauto|].
    symmetry. apply existsb_false. intros p Hp.
    destruct (has_barcode (s_barcode s) p) eqn:Hb; [|apply andb_false_r].
    apply has_barcode_iff in Hb. apply Hbar in Hb; [|assumption].
    apply named_iff in Hb. unfold named in Hb. now rewrite Hb.
  - rewrite existsb_false in Hex.
    replace (existsb (fun p => N.eqb (id p) new_id) ps) with false.
    2:{ symmetry. apply existsb_false. intros p Hp. apply N.eqb_neq. auto. }
    replace (existsb (has_barcode (s_barcode s)) ps) with false; [simpl; eauto|].
    symmetry. apply existsb_false. intros p Hp.
    destruct (has_barcode (s_barcode s) p) eqn:Hb; [|reflexivity].
    apply has_barcode_iff in Hb. apply Hbar in Hb; [|assumption].
    apply Hex in Hp. apply named_false_iff in Hp. contradiction.
Qed.

Lemma upsert_all_succeeds ss : forall ids n ps,
  NoDup (map s_barcode ss) ->
  barcodes_available ss ps -> ids_fresh ids n (List.length ss) ps ->
  exists ps', upsert_all ids n ss ps = Some ps'.
Proof.
  induction ss as [|s ss IH]; intros ids n ps Hcodes Hav [Hnew Hdist]; simpl;
    [eauto|].
  inversion Hcodes as [|? ? Hc0 Hcodes']; subst.
  destruct (upsert_succeeds (ids n) s ps) as [ps1 E].
  { intros p Hp Hb. apply (Hav s p); auto. now left. }
  { intros p Hp. apply Hnew; auto. simpl. lia. }
  rewrite E. apply IH; auto.
  - intros s' p Hs' Hp Hb.
    assert (Hneq : s_barcode s' <> s_barcode s).
    { intros Heq. apply Hc0. rewrite <- Heq. now apply in_map. }
    apply upsert_cases in E as [(_ & -> & _)|(_ & -> & _ & _)].
    + apply in_map_iff in Hp as (q & <- & Hq). rewrite overwrite_name.
      unfold overwrite in Hb. destruct (named s q).
      * simpl in Hb. congruence.
      * apply (Hav s' q); auto. now right.
    + apply in_app_or in Hp as [Hp|[<-|[]]].
      * apply (Hav s' p); auto. now right.
      * simpl in Hb. congruence.
  - split.
    + intros i p Hi Hp.
      apply upsert_cases in E as [(_ & -> & _)|(_ & -> & _ & _)].
      * apply in_map_iff in Hp as (q & <- & Hq). rewrite overwrite_id.
        apply Hnew; auto. simpl. lia.
      * apply in_app_or in Hp as [Hp|[<-|[]]].
        -- apply Hnew; auto. simpl. lia.
        -- simpl. apply Hdist; simpl; lia.
    + intros i j Hi Hj. apply Hdist; simpl; lia.
Qed.

(** X17. The seed step completes when the store rejects none of its
    statements, no row of another name holds a sample barcode, and the ids
    drawn for the nine rows are new. *)
Lemma initDB_succeeds env d :
  no_faults env ->
  barcodes_available sample_products (products d) ->
  ids_fresh (gen_random_uuid env) 0 9 (products d) ->
  exists d', initDB env d = Some d'.
Proof.
  intros Hnf Hav Hfresh. unfold initDB. rewrite !Hnf. cbn [orb].
  destruct (upsert_all_succeeds sample_products (gen_random_uuid env) 0 (products d))
    as [ps' ->]; eauto using sample_barcodes_distinct.
Qed.

(** ** Stock over the life of the service *)

Lemma post_orders_invariant env items d :
  stock_invariant d ->
  stock_invariant (committed (snd (post_orders env items d))).
Proof.
  intros [Hu Hnn].
  destruct (post_orders_outcome env items d) as [Hout Hsaved].
  unfold committed. rewrite Hsaved.
  apply outcome_status in Hout
    as [[_ (its & o & rows & _ & _ & Hchk & _ & _ & _ & ->)]|[_ ->]];
    [|now split].
  split; simpl.
  - unfold unique_ids. now rewrite decrement_all_ids.
  - now apply (accepted_nonnegative its (products d)).
Qed.

Lemma upsert_invariant new_id s ps ps' :
  0 <= s_stock s -> upsert new_id s ps = Some ps' ->
  unique_ids ps /\ nonnegative_stock ps ->
  unique_ids ps' /\ nonnegative_stock ps'.
Proof.
  unfold unique_ids. intros Hs H [Hu Hnn].
  apply upsert_cases in H as [(_ & -> & _)|(_ & -> & Hid & _)]; split.
  - rewrite map_map. erewrite map_ext; [exact Hu|]. intros; apply overwrite_id.
  - intros p Hp. apply in_map_iff in Hp as (q & <- & Hq). unfold overwrite.
    destruct (named s q); [exact Hs|now apply Hnn].
  - rewrite map_app. simpl. apply NoDup_rev in Hu. rewrite <- rev_involutive.
    apply NoDup_rev. rewrite rev_app_distr. simpl. constructor; [|assumption].
    rewrite <- in_rev. intros Hin. apply in_map_iff in Hin as (p & Hp & Hin).
    now apply Hid in Hin.
  - intros p Hp. apply in_app_or in Hp as [Hp|[<-|[]]]; [now apply Hnn|exact Hs].
Qed.

Lemma upsert_all_invariant ss : forall ids n ps ps',
  (forall s, In s ss -> 0 <= s_stock s) ->
  upsert_all ids n ss ps = Some ps' ->
  unique_ids ps /\ nonnegative_stock ps ->
  unique_ids ps' /\ nonnegative_stock ps'.
Proof.
  induction ss as [|s ss IH]; intros ids n ps ps' Hss H Hinv; simpl in H.
  - now injection H as <-.
  - destruct (upsert (ids n) s ps) as [ps1|] eqn:E; [|discriminate].
    apply (IH ids (S n) ps1 ps'); auto.
    + intros s' Hs'. apply Hss. now right.
    + apply (upsert_invariant (ids n) s ps); auto. apply Hss. now left.
Qed.

Lemma sample_stocks_nonnegative s : In s sample_products -> 0 <= s_stock s.
Proof.
  intros Hs. simpl in Hs.
  repeat (destruct Hs as [<-|Hs]; [simpl; lia|]). destruct Hs.
Qed.

Lemma step_invariant d e : stock_invariant d -> stock_invariant (step d e).
Proof.
  intros Hinv. destruct e as [env|env items]; simpl.
  - destruct (initDB env d) as [d'|] eqn:E; [|assumption].
    apply initDB_products in E as (Hup & _ & _).
    exact (upsert_all_invariant _ _ _ _ _ sample_stocks_nonnegative Hup Hinv).
  - now apply post_orders_invariant.
Qed.

(** X16. From empty tables, through any starts of the server and any order
    requests served one after the other, with any store failures: the ids of
    [products] stay unique and no stock is ever negative. *)
Lemma stock_invariant_always es : stock_invariant (run empty_database es).
Proof.
  unfold run.
  assert (H0 : stock_invariant empty_database).
  { split; [constructor|intros p []]. }
  revert H0. generalize empty_database.
  induction es as [|e es IH]; intros d Hd; simpl; [assumption|].
  apply IH. now apply step_invariant.
Qed.

(** ** The theorems at work on the seeded catalog *)

Lemma calm_no_faults : no_faults calm.
Proof. intros n. reflexivity. Qed.

Lemma seeded_unique_ids : unique_ids (products seeded).
Proof.
  unfold unique_ids. vm_compute.
  repeat (constructor; [simpl; intuition discriminate|]). constructor.
Qed.

Lemma seeded_nonnegative : nonnegative_stock (products seeded).
Proof.
  intros p Hp. vm_compute in Hp.
  repeat (destruct Hp as [<-|Hp]; [simpl; lia|]). destruct Hp.
Qed.

Lemma seeded_unique_barcodes : unique_barcodes (products seeded).
Proof.
  intros p q b Hp Hq Hpb Hqb. vm_compute in Hp, Hq.
  repeat (destruct Hp as [<-|Hp];
          [repeat (destruct Hq as [<-|Hq];
                   [first [reflexivity | simpl in *; congruence]|]);
           destruct Hq|]).
  destruct Hp.
Qed.

(** Two units of Milk from the seeded catalog: 200, total "6.48", Milk at 48,
    one order and one order item. *)
Example milk_order :
  let out := post_orders calm (ItemsArray [mkItem milk_id 2]) seeded in
  status (fst out) = 200 /\
  response_total (fst out) = Some "6.48" /\
  response_order_id (fst out) = Some milk_order_uuid /\
  option_map stock (lookup (products (committed (snd out))) milk_uuid) = Some 48 /\
  List.length (orders (committed (snd out))) = 1%nat /\
  map oi_columns (order_items (committed (snd out)))
    = [(milk_order_uuid, Some milk_uuid, 2)].
Proof. vm_compute. repeat split. Qed.

(** The same product under three spellings of its id, in one request: every
    occurrence is taken from the one row, and the reply lists the id as the
    row holds it. *)
Example milk_under_three_spellings :
  let out := post_orders calm
               (ItemsArray [mkItem milk_id 2;
                            mkItem "{00000000-0000-4000-8000-000000000000}" 3;
                            mkItem "00000000000040008000000000000000" 4])
               seeded in
  status (fst out) = 200 /\
  option_map (map r_productId) (response_items (fst out))
    = Some [milk_uuid; milk_uuid; milk_uuid] /\
  option_map stock (lookup (products (committed (snd out))) milk_uuid) = Some 41 /\
  response_total (fst out) = Some "29.16".
Proof. vm_compute. repeat split. Qed.

(** A product id asked twice is checked the second time against what the
    first occurrence left: 30 and 30 of Milk's 50 is refused, with the
    catalog as before. *)
Example repeated_product_refused :
  let out := post_orders calm
               (ItemsArray [mkItem milk_id 30; mkItem bread_id 1;
                            mkItem "00000000000040008000000000000000" 30])
               seeded in
  fst out = json 400 (ErrorBody
              "Insufficient stock for Milk. Available: 20, Requested: 30")
  /\ committed (snd out) = seeded.
Proof. vm_compute. split; reflexivity. Qed.

(** An id of no product after a valid item: 404, catalog as before. *)
Example unknown_product_refused :
  let out := post_orders calm
               (ItemsArray [mkItem milk_id 2;
                            mkItem "00000000-0000-4000-8000-0000000000ff" 1])
               seeded in
  fst out = json 404 (ErrorBody
              "Product not found: 00000000-0000-4000-8000-0000000000ff")
  /\ committed (snd out) = seeded.
Proof. vm_compute. split; reflexivity. Qed.

(** A [productId] that is not the text of an id: the store rejects the
    [SELECT], and the reply is the 500, catalog as before. *)
Example malformed_product_id :
  let out := post_orders calm
               (ItemsArray [mkItem milk_id 2; mkItem "no-such-product" 1]) seeded in
  fst out = json 500 (ErrorBody "Failed to create order")
  /\ committed (snd out) = seeded /\ saved (snd out) = None.
Proof. vm_compute. repeat split. Qed.

(** The store rejecting the [COMMIT], the sixth statement of a one-item
    order: 500, catalog as before. *)
Example rejected_commit_rolls_back :
  let out := post_orders (failing_at 5) (ItemsArray [mkItem milk_id 2]) seeded in
  fst out = json 500 (ErrorBody "Failed to create order")
  /\ committed (snd out) = seeded /\ saved (snd out) = None.
Proof. vm_compute. repeat split. Qed.

(** *** Instances *)

Lemma placed_order_effects_witness :
  let items := ItemsArray [mkItem milk_id 2; mkItem bread_id 1;
                           mkItem "{00000000000040008000000000000000}" 3] in
  status (fst (post_orders calm items seeded)) = 200 /\
  unique_ids (products seeded) /\
  let c' := snd (post_orders calm items seeded) in
  exists its o rows,
    items = ItemsArray its /\
    saved c' = None /\
    products (store c') =
      map (fun p => set_stock (stock p - requested its (id p)) p) (products seeded) /\
    total_stock (products seeded) - total_stock (products (store c'))
      = total_quantity its /\
    orders (store c') = orders seeded ++ [o] /\
    order_items (store c') = order_items seeded ++ rows /\
    List.length rows = List.length its /\
    map oi_columns rows = map (fun it => (order_id o, item_id it, quantity it)) its.
Proof.
  intros items.
  assert (Hok : status (fst (post_orders calm items seeded)) = 200)
    by (vm_compute; reflexivity).
  split; [exact Hok|]. split; [exact seeded_unique_ids|].
  exact (placed_order_effects calm items seeded Hok seeded_unique_ids).
Defined.


Lemma insufficient_stock_iff_witness :
  let items := ItemsArray [mkItem bread_id 1;
                           mkItem "00000000000040008000000000000000" 51] in
  no_faults calm /\
  let r := fst (post_orders calm items seeded) in
  let c' := snd (post_orders calm items seeded) in
  ((exists p it, r = json 400 (insufficient_stock calm p it)) <->
   (exists pre it post p,
      items = ItemsArray (pre ++ it :: post) /\
      check_stock (products seeded) pre
        = Accepted (decrement_all pre (products seeded)) /\
      lookup_item (decrement_all pre (products seeded)) it = Some p /\
      stock p < quantity it)) /\
  (forall pre it post p,
      items = ItemsArray (pre ++ it :: post) ->
      check_stock (products seeded) pre
        = Accepted (decrement_all pre (products seeded)) ->
      lookup_item (decrement_all pre (products seeded)) it = Some p ->
      stock p < quantity it ->
      r = json 400 (insufficient_stock calm p it)
      /\ store c' = seeded /\ saved c' = None) /\
  (forall it p,
      items = ItemsArray [it] ->
      lookup_item (products seeded) it = Some p ->
      quantity it = stock p ->
      status r = 200).
Proof.
  intros items. split; [exact calm_no_faults|].
  exact (insufficient_stock_iff calm items seeded calm_no_faults).
Defined.

(** The request of the instance above is refused with Milk named. *)
Example respelled_milk_refused :
  fst (post_orders calm
         (ItemsArray [mkItem bread_id 1;
                      mkItem "00000000000040008000000000000000" 51]) seeded)
  = json 400 (ErrorBody
      "Insufficient stock for Milk. Available: 50, Requested: 51").
Proof. vm_compute. reflexivity. Qed.

Lemma stock_never_negative_witness :
  let items := ItemsArray [mkItem milk_id 30; mkItem milk_id 20; mkItem bread_id (-4)] in
  unique_ids (products seeded) /\
  nonnegative_stock (products seeded) /\
  nonnegative_stock (products (committed (snd (post_orders calm items seeded)))).
Proof.
  intros items. split; [exact seeded_unique_ids|]. split; [exact seeded_nonnegative|].
  exact (stock_never_negative calm items seeded seeded_unique_ids seeded_nonnegative).
Defined.

Lemma invalid_request_rejected_witness :
  let items := ItemsString "milk" in
  (Array_isArray items = false \/ items = ItemsArray []) /\
  let r := fst (post_orders calm items seeded) in
  let c' := snd (post_orders calm items seeded) in
  store c' = seeded /\ saved c' = None /\
  (r = json 400 (ErrorBody "Invalid items data provided.") \/
   (r = json 500 (ErrorBody "Failed to create order") /\ ~ no_faults calm)) /\
  (no_faults calm -> r = json 400 (ErrorBody "Invalid items data provided.")).
Proof.
  intros items.
  assert (Hbad : Array_isArray items = false \/ items = ItemsArray [])
    by (left; reflexivity).
  split; [exact Hbad|]. exact (invalid_request_rejected calm items seeded Hbad).
Defined.

Lemma persisted_quantity_within_stock_witness :
  let items := ItemsArray [mkItem milk_id (-5); mkItem bread_id 0] in
  status (fst (post_orders calm items seeded)) = 200 /\
  exists its rows,
    items = ItemsArray its /\
    order_items (committed (snd (post_orders calm items seeded)))
      = order_items seeded ++ rows /\
    map oi_quantity rows = map quantity its /\
    forall pre it post,
      its = pre ++ it :: post ->
      exists p, lookup_item (decrement_all pre (products seeded)) it = Some p
                /\ quantity it <= stock p.
Proof.
  intros items.
  assert (Hok : status (fst (post_orders calm items seeded)) = 200)
    by (vm_compute; reflexivity).
  split; [exact Hok|].
  exact (persisted_quantity_within_stock calm items seeded Hok).
Defined.

Lemma barcode_lookup_witness :
  let b := "9999999999" in
  no_faults calm /\
  unique_barcodes (products seeded) /\
  let r := get_product_by_barcode calm b seeded in
  (r = json 404 (ErrorBody "Product not found") <->
   forall p, In p (products seeded) -> barcode p <> Some b) /\
  (status r = 404 <-> forall p, In p (products seeded) -> barcode p <> Some b) /\
  (forall p, In p (products seeded) -> barcode p = Some b ->
             r = json 200 (ProductBody p)).
Proof.
  intros b. split; [exact calm_no_faults|]. split; [exact seeded_unique_barcodes|].
  exact (barcode_lookup calm b seeded calm_no_faults seeded_unique_barcodes).
Defined.

Lemma seeding_idempotent_witness :
  initDB startup empty_database = Some seeded /\
  unique_names (products empty_database) /\
  (forall s, In s sample_products ->
     exists p, filter (named s) (products seeded) = [p] /\
               price p = s_price s /\ stock p = s_stock s /\
               barcode p = Some (s_barcode s)) /\
  (forall d2, initDB calm seeded = Some d2 -> d2 = seeded) /\
  (no_faults calm -> initDB calm seeded = Some seeded).
Proof.
  assert (Hrun : initDB startup empty_database = Some seeded)
    by (vm_compute; reflexivity).
  assert (Hnames : unique_names (products empty_database)) by constructor.
  split; [exact Hrun|]. split; [exact Hnames|].
  exact (seeding_idempotent startup calm empty_database seeded Hrun Hnames).
Defined.

Lemma seeding_overwrites_witness :
  initDB startup after_milk_order = Some restarted /\
  (exists added,
     products restarted
       = map (refresh sample_products) (products after_milk_order) ++ added /\
     forall a, In a added ->
       exists s, In s sample_products /\ a = sample_row (id a) s /\
                 forall p, In p (products after_milk_order) -> name p <> s_name s) /\
  (forall p s, In s sample_products -> name p = s_name s ->
     refresh sample_products p
     = mkProduct (id p) (name p) (s_price s) (s_stock s) (Some (s_barcode s))) /\
  (forall p, (forall s, In s sample_products -> name p <> s_name s) ->
     refresh sample_products p = p) /\
  (forall p, In p (products restarted) -> name p = "Milk" ->
     price p = 300 /\ stock p = 50 /\ barcode p = Some "1234567890") /\
  orders restarted = orders after_milk_order /\
  order_items restarted = order_items after_milk_order.
Proof.
  assert (Hrun : initDB startup after_milk_order = Some restarted)
    by (vm_compute; reflexivity).
  split; [exact Hrun|].
  exact (seeding_overwrites startup after_milk_order restarted Hrun).
Defined.

(** The restart puts Milk back from 48 to 50 and keeps the order. *)
Example restart_resets_stock :
  option_map stock (lookup (products after_milk_order) milk_uuid) = Some 48 /\
  option_map stock (lookup (products restarted) milk_uuid) = Some 50 /\
  map id (products restarted) = map id (products after_milk_order) /\
  List.length (orders restarted) = 1%nat.
Proof. vm_compute. repeat split. Qed.

(** The seed step stops, changing nothing, when a row of another name holds
    a sample's barcode. *)
Example seeding_stops_on_taken_barcode :
  initDB startup
    (mkDatabase [mkProduct 0x22222222222242228222222222222222%N "Cola" 150 10
                           (Some "1234567890")] [] [])
  = None.
Proof. vm_compute. reflexivity. Qed.

(** Lookups by barcode on the seeded catalog. *)
Example unknown_barcode :
  get_product_by_barcode calm "9999999999" seeded
  = json 404 (ErrorBody "Product not found").
Proof. vm_compute. reflexivity. Qed.

Example milk_barcode :
  get_product_by_barcode calm "1234567890" seeded
  = json 200 (ProductBody (mkProduct milk_uuid "Milk" 300 50 (Some "1234567890"))).
Proof. vm_compute. reflexivity. Qed.

(** C7 as the specification has it fails: a request for minus five units of
    Milk is answered 200, the row it persists has quantity -5, and Milk's
    stock goes up to 55; a request for zero units is answered 200 as well. *)
Lemma nonpositive_quantity_persisted :
  let out := post_orders calm (ItemsArray [mkItem milk_id (-5)]) seeded in
  let zero := post_orders calm (ItemsArray [mkItem milk_id 0]) seeded in
  status (fst out) = 200 /\
  map oi_quantity (order_items (committed (snd out))) = [-5] /\
  option_map stock (lookup (products (committed (snd out))) milk_uuid) = Some 55 /\
  status (fst zero) = 200 /\
  map oi_quantity (order_items (committed (snd zero))) = [0] /\
  ~ (forall env items d,
       status (fst (post_orders env items d)) = 200 ->
       forall row, In row (order_items (committed (snd (post_orders env items d)))) ->
                   0 < oi_quantity row).
Proof.
  intros out zero. repeat (split; [vm_compute; reflexivity|]).
  intros H.
  specialize (H calm (ItemsArray [mkItem milk_id (-5)]) seeded).
  assert (Hok : status (fst (post_orders calm (ItemsArray [mkItem milk_id (-5)]) seeded))
                = 200) by (vm_compute; reflexivity).
  specialize (H Hok
    (mkOrderItem 0x11111111111141118111111111111105%N milk_order_uuid milk_uuid (-5))).
  assert (Hneg : 0 < -5); [|lia].
  apply H. vm_compute. left. reflexivity.
Qed.


(** A mixed order whose prices are not binary fractions: 7 Orange at 0.85,
    3 Yogurt at 1.25 and 1 Butter at 2.75 make 12.45, with tax 13.446; the
    binary64 total is close enough to print as the exact amount rounded. *)
Example mixed_order_total :
  let its := [mkItem orange_id 7;
              mkItem "00000000-0000-4000-8000-000000000005" 3;
              mkItem "00000000-0000-4000-8000-000000000004" 1] in
  exact_subtotal (products seeded) its = 1245 /\
  JS.close_to (with_tax (subtotal (products seeded) its))
              (108 * exact_subtotal (products seeded) its) /\
  response_total (fst (post_orders calm (ItemsArray its) seeded)) = Some "13.45".
Proof. vm_compute. repeat split. Qed.

(** The pickup code has six digits at both ends of [Math.random()]'s range
    and in between. *)
Example pickup_codes :
  pickup_code_of calm 0%float = "100000" /\
  pickup_code_of calm 0.5%float = "550000" /\
  pickup_code_of calm 0x1.fffffffffffffp-1%float = "999999".
Proof. vm_compute. repeat split. Qed.

(** * Beyond order placement and seeding *)

(** ** connectDB: ten attempts, two seconds apart *)

Lemma connect_loop_success pool_connect k : forall i left log slept,
  (k < left)%nat ->
  pool_connect (i + k)%nat = None ->
  (forall j, (j < k)%nat -> pool_connect (i + j)%nat <> None) ->
  let run := connect_loop pool_connect i left log slept in
  pool run = PoolReady /\ attempts run = S (i + k) /\
  waited run = slept + 2000 * Z.of_nat k /\
  List.length (console run) = (List.length log + k + 1)%nat /\
  last (console run) "" = "Database connected!".
Proof.
  induction k as [|k IH]; intros i left log slept Hlt Hok Hfail run; subst run.
  - destruct left as [|left]; [lia|]. cbn [connect_loop].
    rewrite Nat.add_0_r in Hok. rewrite Hok.
    cbn [pool attempts waited console].
    rewrite Nat.add_0_r, length_app, last_last. simpl. repeat split; lia.
  - destruct left as [|left]; [lia|]. cbn [connect_loop].
    destruct (pool_connect i) as [msg|] eqn:E.
    + specialize (IH (S i) left
        (log ++ ["Database connection failed (attempt "
                 ^^ JS.Z_toString (Z.of_nat (i + 1)) ^^ "/10): " ^^ msg])
        (slept + 2000)).
      replace (S i + k)%nat with (i + S k)%nat in IH by lia.
      destruct IH as (H1 & H2 & H3 & H4 & H5); [lia|assumption| |].
      * intros j Hj. replace (S i + j)%nat with (i + S j)%nat by lia.
        apply Hfail. lia.
      * rewrite H1, H2, H3, H4, H5, length_app. cbn [List.length].
        repeat split; lia.
    + exfalso. apply (Hfail 0%nat); [lia|]. now rewrite Nat.add_0_r.
Qed.

Lemma connect_loop_failure pool_connect : forall left i log slept,
  (forall j, (j < left)%nat -> pool_connect (i + j)%nat <> None) ->
  let run := connect_loop pool_connect i left log slept in
  pool run = PoolError "Failed to connect to database after 10 attempts" /\
  attempts run = (i + left)%nat /\
  waited run = slept + 2000 * Z.of_nat left /\
  List.length (console run) = (List.length log + left)%nat.
Proof.
  induction left as [|left IH]; intros i log slept Hfail run; subst run.
  - simpl. repeat split; lia.
  - cbn [connect_loop]. destruct (pool_connect i) as [msg|] eqn:E.
    + specialize (IH (S i)
        (log ++ ["Database connection failed (attempt "
                 ^^ JS.Z_toString (Z.of_nat (i + 1)) ^^ "/10): " ^^ msg])
        (slept + 2000)).
      destruct IH as (H1 & H2 & H3 & H4).
      * intros j Hj. replace (S i + j)%nat with (i + S j)%nat by lia.
        apply Hfail. lia.
      * rewrite H1, H2, H3, H4, length_app. cbn [List.length].
        repeat split; lia.
    + exfalso. apply (Hfail 0%nat); [lia|]. now rewrite Nat.add_0_r.
Qed.

(** The first of the ten attempts to connect, if any. *)
Lemma first_connect (pool_connect : nat -> option string) n :
  (exists k, (k < n)%nat /\ pool_connect k = None) ->
  exists k, (k < n)%nat /\ pool_connect k = None
            /\ forall j, (j < k)%nat -> pool_connect j <> None.
Proof.
  induction n as [|n IH]; intros (k & Hk & Hok); [lia|].
  destruct (Nat.eq_dec k n) as [->|Hne].
  - destruct (existsb (fun j => match pool_connect j with None => true | _ => false end)
                      (seq 0 n)) eqn:E.
    + apply existsb_exists in E as (j & Hj & Hc). apply in_seq in Hj.
      destruct IH as (k' & Hk' & Hok' & Hmin).
      { exists j. split; [lia|]. now destruct (pool_connect j). }
      exists k'. repeat split; auto.
    + exists n. repeat split; auto. intros j Hj Hc.
      rewrite existsb_false in E. specialize (E j).
      rewrite Hc in E. discriminate E. apply in_seq. lia.
  - destruct IH as (k' & Hk' & Hok' & Hmin); [exists k; split; [lia|assumption]|].
    exists k'. repeat split; auto.
Qed.

Lemma connectDB_ready_iff (pool_connect : nat -> option string) :
  pool (connectDB pool_connect) = PoolReady <->
  exists k, (k < 10)%nat /\ pool_connect k = None.
Proof.
  unfold connectDB. split.
  - intros Hready.
    destruct (existsb (fun j => match pool_connect j with None => true | _ => false end)
                      (seq 0 10)) eqn:E.
    + apply existsb_exists in E as (j & Hj & Hc). apply in_seq in Hj.
      exists j. split; [lia|]. now destruct (pool_connect j).
    + assert (Hall : forall j, (j < 10)%nat -> pool_connect (0 + j)%nat <> None).
      { intros j Hj Hc. rewrite existsb_false in E. specialize (E j).
        simpl in Hc. rewrite Hc in E. discriminate E. apply in_seq. lia. }
      destruct (connect_loop_failure pool_connect 10 0 [] 0 Hall) as (H1 & _).
      rewrite H1 in Hready. discriminate.
  - intros H. apply first_connect in H as (k & Hk & Hok & Hmin).
    now destruct (connect_loop_success pool_connect k 0 10 [] 0 Hk Hok Hmin).
Qed.

(** X1. When the [k]-th call of [pool.connect()], [k] below ten, is the first
    to connect, [connectDB] returns the pool after exactly [k + 1] calls,
    having waited two seconds after each of the [k] failures and logged one
    line per call, the last being "Database connected!". *)
Theorem connectDB_first_success (pool_connect : nat -> option string) (k : nat)
    (Hk : (k < 10)%nat)
    (Hok : pool_connect k = None)
    (Hfirst : forall j, (j < k)%nat -> pool_connect j <> None) :
  let run := connectDB pool_connect in
  pool run = PoolReady /\
  attempts run = S k /\
  waited run = 2000 * Z.of_nat k /\
  List.length (console run) = S k /\
  last (console run) "" = "Database connected!".
Proof.
  intros run. subst run. unfold connectDB.
  destruct (connect_loop_success pool_connect k 0 10 [] 0 Hk Hok Hfirst)
    as (H1 & H2 & H3 & H4 & H5).
  rewrite H1, H2, H3, H4, H5. simpl. repeat split; lia.
Qed.

(** X2. [connectDB] never calls [pool.connect()] more than ten times nor
    waits more than twenty seconds; it returns the pool exactly when one of
    the first ten calls connects, and otherwise, after ten calls and twenty
    seconds, throws "Failed to connect to database after 10 attempts". *)
Theorem connectDB_bounded (pool_connect : nat -> option string) :
  let run := connectDB pool_connect in
  (attempts run <= 10)%nat /\
  0 <= waited run <= 20000 /\
  (pool run = PoolReady <->
   exists k, (k < 10)%nat /\ pool_connect k = None) /\
  (pool run <> PoolReady ->
   pool run = PoolError "Failed to connect to database after 10 attempts" /\
   attempts run = 10%nat /\ waited run = 20000 /\
   List.length (console run) = 10%nat).
Proof.
  intros run. subst run. unfold connectDB.
  destruct (existsb (fun j => match pool_connect j with None => true | _ => false end)
                    (seq 0 10)) eqn:E.
  - apply existsb_exists in E as (j & Hj & Hc). apply in_seq in Hj.
    destruct (first_connect pool_connect 10) as (k & Hk & Hok & Hmin).
    { exists j. split; [lia|]. now destruct (pool_connect j). }
    destruct (connect_loop_success pool_connect k 0 10 [] 0 Hk Hok Hmin)
      as (H1 & H2 & H3 & _).
    rewrite H1, H2, H3.
    split; [lia|]. split; [lia|]. split; [split; eauto|].
    intros H. now elim H.
  - assert (Hall : forall j, (j < 10)%nat -> pool_connect (0 + j)%nat <> None).
    { intros j Hj Hc. rewrite existsb_false in E. specialize (E j).
      simpl in Hc. rewrite Hc in E. discriminate E. apply in_seq. lia. }
    destruct (connect_loop_failure pool_connect 10 0 [] 0 Hall) as (H1 & H2 & H3 & H4).
    rewrite H1, H2, H3, H4.
    split; [lia|]. split; [lia|]. split; [|intros _; repeat split; simpl; lia].
    split; [discriminate|]. intros (k & Hk & Hok). exfalso.
    now apply (Hall k Hk).
Qed.

(** ** startServer: routes only on a seeded catalog *)

(** X3. [startServer] reaches [app.listen] exactly when one of the first ten
    calls of [pool.connect()] connects and [initDB] completes; the tables are
    then those [initDB] left, with every sample product in the catalog at
    its price, stock and barcode.  Otherwise it exits with the tables as they
    were. *)
Theorem startServer_listens_seeded (pool_connect : nat -> option string)
    (env : environment) (d : database) :
  let up := fst (startServer pool_connect env d) in
  let d' := snd (startServer pool_connect env d) in
  (up = true <->
   (exists k, (k < 10)%nat /\ pool_connect k = None)
   /\ exists d1, initDB env d = Some d1) /\
  (up = true ->
   initDB env d = Some d' /\
   forall s, In s sample_products -> settled s (products d')) /\
  (up = false -> d' = d).
Proof.
  intros up d'. subst up d'. unfold startServer.
  pose proof (connectDB_ready_iff pool_connect) as Hready.
  destruct (pool (connectDB pool_connect)) as [|msg].
  - destruct (initDB env d) as [d1|] eqn:E; cbn [fst snd].
    + split; [|split].
      * split; [intros _|reflexivity]. split; [now apply Hready|eauto].
      * intros _. split; [reflexivity|].
        apply initDB_products in E as (Hup & _ & _).
        eapply upsert_all_settles; eauto using sample_names_distinct,
          sample_barcodes_distinct.
      * discriminate.
    + split; [|split]; try discriminate; [|reflexivity].
      split; [discriminate|]. intros (_ & d1 & H). discriminate.
  - cbn [fst snd]. split; [|split]; try discriminate; [|reflexivity].
    split; [discriminate|]. intros (H & _). apply Hready in H. discriminate.
Qed.

(** ** Store errors during order placement *)

Section Statements.

Variable env : environment.

Lemma accepted_between_trans a b c :
  (a <= b)%nat -> accepted_between env a b -> accepted_between env b c ->
  accepted_between env a c.
Proof.
  intros Hab H1 H2 n Hn. destruct (Nat.lt_ge_cases n b); [apply H1|apply H2]; lia.
Qed.

Lemma counts_ret {A : Type} (Q : A -> Prop) a :
  Q a -> counts_statements env Q (ret a).
Proof. intros Ha c. simpl. repeat split; auto. intros n Hn. lia. Qed.

Lemma counts_return {A : Type} (Q : A -> Prop) r :
  status r <> 500 -> counts_statements env Q (return_ r).
Proof. intros Hr c. simpl. repeat split; auto. intros n Hn. lia. Qed.

Lemma counts_query {A : Type} (sql : connection -> option (A * connection)) :
  (forall c a c2, sql c = Some (a, c2) -> issued c2 = issued c) ->
  counts_statements env (fun _ => True) (client_query env sql).
Proof.
  intros Hsql c. rewrite client_query_run.
  destruct (fault env (issued c)) eqn:F; cbn [issued].
  - split; [lia|]. intros n Hn. lia.
  - destruct (sql _) as [[a c2]|] eqn:E.
    + apply Hsql in E. cbn [issued] in E. rewrite E.
      split; [exact I|]. split; [lia|].
      intros n Hn. replace n with (issued c) by lia. assumption.
    + cbn [issued]. split; [lia|]. intros n Hn. lia.
Qed.

Lemma counts_bind {A B : Type} (Q : A -> Prop) (R : B -> Prop) (m : js A)
    (k : A -> js B) :
  counts_statements env Q m ->
  (forall a, Q a -> counts_statements env R (k a)) ->
  counts_statements env R (bind m k).
Proof.
  intros Hm Hk c. unfold bind. specialize (Hm c).
  destruct (m c) as [[a|r|] c1].
  - destruct Hm as (Ha & Hle & Hacc). specialize (Hk a Ha c1).
    destruct (k a c1) as [[b|r|] c2].
    + destruct Hk as (Hb & Hle2 & Hacc2). repeat split; auto; [lia|].
      now apply accepted_between_trans with (issued c1).
    + destruct Hk as (Hr & Hle2 & Hacc2). repeat split; auto; [lia|].
      now apply accepted_between_trans with (issued c1).
    + destruct Hk as (Hlt & Hacc2). repeat split; auto; [lia|].
      now apply accepted_between_trans with (issued c1).
  - exact Hm.
  - exact Hm.
Qed.

Lemma on_store_issued {A : Type} (f : database -> option (A * database)) c a c2 :
  SQL.on_store f c = Some (a, c2) -> issued c2 = issued c.
Proof.
  unfold SQL.on_store. destruct (f (store c)) as [[a' d']|]; [|discriminate].
  now intros [= _ <-].
Qed.

Lemma transaction_issued (sql : connection -> option (unit * connection)) :
  sql = SQL.BEGIN \/ sql = SQL.ROLLBACK \/ sql = SQL.COMMIT ->
  forall c a c2, sql c = Some (a, c2) -> issued c2 = issued c.
Proof.
  intros [-> |[-> | ->]] c a c2; unfold SQL.BEGIN, SQL.ROLLBACK, SQL.COMMIT.
  - destruct (saved c); now intros [= _ <-].
  - now intros [= _ <-].
  - now intros [= _ <-].
Qed.

Lemma counts_rollback_return {A : Type} (Q : A -> Prop) r :
  status r <> 500 ->
  counts_statements env Q (client_query env SQL.ROLLBACK ;;; return_ r).
Proof.
  intros Hr. eapply counts_bind.
  - apply counts_query. apply transaction_issued. auto.
  - intros _ _. now apply counts_return.
Qed.

Lemma counts_for_items its : forall total ois,
  counts_statements env (fun _ => True) (for_items env its total ois).
Proof.
  induction its as [|it rest IH]; intros total ois; cbn [for_items].
  - now apply counts_ret.
  - eapply counts_bind; [apply counts_query; intros c; apply on_store_issued|].
    intros [|p rows] _.
    + apply counts_rollback_return. discriminate.
    + destruct (stock p <? quantity it).
      * apply counts_rollback_return. discriminate.
      * eapply counts_bind; [apply counts_query; intros c; apply on_store_issued|].
        intros _ _. apply IH.
Qed.

Lemma counts_for_orderItems orderId ois :
  counts_statements env (fun _ => True) (for_orderItems env orderId ois).
Proof.
  induction ois as [|oi rest IH]; cbn [for_orderItems].
  - now apply counts_ret.
  - eapply counts_bind; [apply counts_query; intros c; apply on_store_issued|].
    intros _ _. exact IH.
Qed.

Lemma counts_post_orders_try items :
  counts_statements env (fun r => status r <> 500) (post_orders_try env items).
Proof.
  unfold post_orders_try.
  eapply counts_bind; [apply counts_query, transaction_issued; auto|].
  intros _ _. destruct (negb _ || _).
  - apply counts_rollback_return. discriminate.
  - eapply counts_bind; [apply counts_for_items|].
    intros [total orderItems] _.
    eapply counts_bind; [apply counts_query; intros c; apply on_store_issued|].
    intros orderId _.
    eapply counts_bind; [apply counts_for_orderItems|].
    intros _ _.
    eapply counts_bind; [apply counts_query, transaction_issued; auto|].
    intros _ _. apply counts_ret. discriminate.
Qed.

End Statements.

(** X4. Whatever the request, [POST /api/orders] sends a reply other than the
    500 only when the store accepted every statement the handler had sent;
    and when the store rejects one of them, the order is not placed and the
    tables are those of before. *)
Theorem reply_only_when_accepted (env : environment) (items : items_field)
    (d : database) :
  let r := fst (post_orders env items d) in
  let c' := snd (post_orders env items d) in
  (status r <> 500 -> accepted_between env 0 (issued c')) /\
  ((exists n, (n < issued c')%nat /\ fault env n = true) ->
   status r <> 200 /\ committed c' = d).
Proof.
  intros r c'. subst r c'.
  destruct (post_orders_outcome env items d) as [Hout Hsaved].
  apply outcome_status in Hout.
  assert (Hacc : status (fst (post_orders env items d)) <> 500 ->
                 accepted_between env 0 (issued (snd (post_orders env items d)))).
  { unfold post_orders, try_catch.
    pose proof (counts_post_orders_try env items (connect d)) as Hc.
    destruct (post_orders_try env items (connect d)) as [[r|r|] c1];
      cbn [connect issued] in Hc; cbn [fst snd].
    - intros _. now destruct Hc as (_ & _ & Hacc).
    - intros _. now destruct Hc as (_ & _ & Hacc).
    - unfold post_orders_catch. cbn [SQL.ROLLBACK fst status json].
      intros H. now elim H. }
  split; [exact Hacc|].
  intros (n & Hn & Hf).
  assert (H500 : status (fst (post_orders env items d)) = 500).
  { destruct (Z.eq_dec (status (fst (post_orders env items d))) 500) as [E|E];
      [exact E|].
    rewrite (Hacc E n) in Hf by lia. discriminate. }
  unfold committed. rewrite Hsaved.
  destruct Hout as [[H200 _]|[Hne ->]]; [congruence|].
  split; [assumption|reflexivity].
Qed.

(** ** The reply when the store rejects nothing, in closed form *)

Section Calm.

Variable env : environment.
Hypothesis Hcalm : no_faults env.

Lemma client_query_calm {A : Type} (sql : connection -> option (A * connection))
    c a c2 :
  sql (mkConn (store c) (saved c) (S (issued c))) = Some (a, c2) ->
  client_query env sql c = (Normal a, c2).
Proof. intros E. rewrite client_query_run. now rewrite Hcalm, E. Qed.

Lemma for_items_calm its : forall total ois c ps',
  check_stock (products (store c)) its = Accepted ps' ->
  for_items env its total ois c =
  (Normal (subtotal_from (products (store c)) its total,
           ois ++ map (resolve (products (store c))) its),
   mkConn (set_products ps' (store c)) (saved c)
          (issued c + 2 * List.length its)).
Proof.
  induction its as [|it rest IH]; intros total ois c ps' Hchk.
  - cbn [check_stock] in Hchk. injection Hchk as <-.
    cbn [for_items ret subtotal_from fold_left map List.length].
    rewrite app_nil_r, Nat.mul_0_r, Nat.add_0_r.
    destruct c as [[ps os ois'] sv n]. reflexivity.
  - cbn [check_stock] in Hchk. cbn [for_items].
    destruct (item_id it) as [pid|] eqn:Hid; [|discriminate].
    unfold lookup in Hchk.
    destruct (filter _ (products (store c))) as [|p rows] eqn:Hrows;
      cbn [hd_error] in Hchk; [discriminate|].
    assert (Hl : lookup_item (products (store c)) it = Some p).
    { unfold lookup_item. rewrite Hid. unfold lookup. now rewrite Hrows. }
    unfold bind at 1.
    erewrite client_query_calm.
    2:{ unfold SQL.on_store, SQL.select_product_for_update.
        change (UUID.of_text (productId it)) with (item_id it). rewrite Hid.
        cbn [store saved issued]. rewrite Hrows. reflexivity. }
    cbv beta iota.
    destruct (stock p <? quantity it); [discriminate|].
    unfold bind at 1.
    erewrite client_query_calm.
    2:{ unfold SQL.on_store, SQL.update_stock.
        change (UUID.of_text (productId it)) with (item_id it). rewrite Hid.
        cbn [store saved issued].
        rewrite <- (decrement_item_id it pid) by exact Hid. reflexivity. }
    rewrite (IH _ _ _ ps');
      cbn [store products orders order_items set_products saved issued];
      [|exact Hchk].
    rewrite subtotal_from_decrement, map_resolve_decrement.
    assert (Hsub : subtotal_from (products (store c)) (it :: rest) total
                   = subtotal_from (products (store c)) rest
                       (total + JS.Number_of_decimal2 (price p)
                                * JS.Number_of_Z (quantity it))%float).
    { unfold subtotal_from. cbn [fold_left]. unfold unit_price at 2.
      rewrite Hl. reflexivity. }
    assert (Hres : ois ++ map (resolve (products (store c))) (it :: rest)
                   = (ois ++ [mkResolved (id p) (quantity it) (name p)
                                         (JS.Number_of_decimal2 (price p))])
                     ++ map (resolve (products (store c))) rest).
    { rewrite <- app_assoc. cbn [app map]. unfold resolve at 1.
      rewrite Hl. reflexivity. }
    rewrite Hsub, Hres. f_equal. unfold set_products.
    cbn [products orders order_items List.length]. f_equal. lia.
Qed.

Lemma for_orderItems_calm orderId ois : forall c,
  exists c', for_orderItems env orderId ois c = (Normal tt, c').
Proof.
  induction ois as [|oi rest IH]; intros c; cbn [for_orderItems].
  - eexists. reflexivity.
  - unfold bind at 1. erewrite client_query_calm by reflexivity. apply IH.
Qed.

(** An accepted, non-empty list of items gets [placed_reply]. *)
Lemma post_orders_calm_placed its d ps' :
  its <> [] -> check_stock (products d) its = Accepted ps' ->
  fst (post_orders env (ItemsArray its) d) = placed_reply env (products d) its.
Proof.
  intros Hne Hchk. unfold post_orders, try_catch, post_orders_try.
  unfold bind at 1. erewrite client_query_calm by reflexivity.
  cbn [connect saved store issued Array_isArray array_elements negb orb].
  destruct its as [|it0 rest]; [contradiction|].
  cbn [List.length Nat.eqb]. unfold bind at 1.
  rewrite (for_items_calm (it0 :: rest) 0%float [] _ ps') by exact Hchk.
  cbn [store saved issued app]. unfold bind at 1.
  erewrite client_query_calm by reflexivity.
  cbn [store saved issued].
  unfold bind at 1.
  match goal with |- context [for_orderItems env ?oid ?ois ?c] =>
    destruct (for_orderItems_calm oid ois c) as [c4 ->] end.
  unfold bind at 1. erewrite client_query_calm by reflexivity.
  cbn [fst snd ret]. unfold placed_reply, subtotal, with_tax.
  do 2 f_equal. f_equal. f_equal. lia.
Qed.

End Calm.

(** ** Orders on different products do not affect each other *)

Lemma adjust_comm a b p : adjust a (adjust b p) = adjust b (adjust a p).
Proof.
  unfold adjust.
  destruct (item_id a) as [va|]; destruct (item_id b) as [vb|]; try reflexivity.
  destruct (N.eqb (id p) va) eqn:Ea;
    destruct (N.eqb (id p) vb) eqn:Eb;
    cbn [id set_stock stock name price barcode]; rewrite ?Ea, ?Eb; try reflexivity.
  unfold set_stock; cbn [id name price stock barcode]. f_equal. lia.
Qed.

Lemma decrement_comm a b ps :
  decrement a (decrement b ps) = decrement b (decrement a ps).
Proof.
  rewrite !decrement_map, !map_map. apply map_ext. intros; apply adjust_comm.
Qed.

Lemma decrement_decrement_all b its : forall ps,
  decrement b (decrement_all its ps) = decrement_all its (decrement b ps).
Proof.
  induction its as [|a its IH]; intros ps; [reflexivity|].
  now rewrite !decrement_all_cons, IH, decrement_comm.
Qed.

Lemma decrement_all_comm its1 : forall its2 ps,
  decrement_all its1 (decrement_all its2 ps)
  = decrement_all its2 (decrement_all its1 ps).
Proof.
  induction its1 as [|a its1 IH]; intros its2 ps; [reflexivity|].
  now rewrite !decrement_all_cons, decrement_decrement_all, IH.
Qed.

Lemma lookup_decrement_other it ps pid :
  item_id it <> Some pid -> lookup (decrement it ps) pid = lookup ps pid.
Proof.
  intros Hne. rewrite lookup_decrement.
  destruct (lookup ps pid) as [p|] eqn:E; [|reflexivity].
  cbn [option_map]. f_equal. unfold adjust.
  apply lookup_id in E. rewrite E.
  destruct (item_id it) as [v|]; [|reflexivity].
  destruct (N.eqb pid v) eqn:Eq; [|reflexivity].
  apply N.eqb_eq in Eq. congruence.
Qed.

Lemma lookup_decrement_all_other its : forall ps pid,
  (forall a, In a its -> item_id a <> Some pid) ->
  lookup (decrement_all its ps) pid = lookup ps pid.
Proof.
  induction its as [|a its IH]; intros ps pid H; [reflexivity|].
  rewrite decrement_all_cons, IH by (intros; apply H; now right).
  apply lookup_decrement_other. apply H. now left.
Qed.

(** The checks of one order see nothing of an order on other products. *)
Lemma check_stock_disjoint its1 its2 : forall ps,
  disjoint_products its1 its2 ->
  check_stock (decrement_all its1 ps) its2 =
  match check_stock ps its2 with
  | Accepted ps2 => Accepted (decrement_all its1 ps2)
  | refused => refused
  end.
Proof.
  induction its2 as [|b rest IH]; intros ps Hdis; [reflexivity|].
  cbn [check_stock].
  destruct (item_id b) as [vb|] eqn:Hb; [|reflexivity].
  rewrite lookup_decrement_all_other.
  2:{ intros a Ha Heq. apply (Hdis a b vb Ha (or_introl eq_refl) Heq Hb). }
  destruct (lookup ps vb) as [p|]; [|reflexivity].
  destruct (stock p <? quantity b); [reflexivity|].
  rewrite decrement_decrement_all. apply IH.
  intros x y v Hx Hy. apply Hdis; [assumption|now right].
Qed.

Lemma unit_price_decrement_all its : forall ps it,
  unit_price (decrement_all its ps) it = unit_price ps it.
Proof.
  induction its as [|a its IH]; intros ps it; [reflexivity|].
  now rewrite decrement_all_cons, IH, unit_price_decrement.
Qed.

Lemma resolve_decrement_all its : forall ps it,
  resolve (decrement_all its ps) it = resolve ps it.
Proof.
  induction its as [|a its IH]; intros ps it; [reflexivity|].
  now rewrite decrement_all_cons, IH, resolve_decrement.
Qed.

Lemma subtotal_decrement_all its1 ps its2 :
  subtotal (decrement_all its1 ps) its2 = subtotal ps its2.
Proof.
  unfold subtotal, subtotal_from. generalize 0%float.
  induction its2 as [|b rest IH]; intros t; [reflexivity|].
  cbn [fold_left]. now rewrite unit_price_decrement_all, IH.
Qed.

Lemma placed_reply_decrement_all env its1 ps its2 :
  placed_reply env (decrement_all its1 ps) its2 = placed_reply env ps its2.
Proof.
  unfold placed_reply. rewrite subtotal_decrement_all.
  rewrite (map_ext _ _ (resolve_decrement_all its1 ps)). reflexivity.
Qed.

(** With no statement rejected, the reply is a function of the verdict. *)
Lemma reply_calm env its d :
  no_faults env ->
  fst (post_orders env (ItemsArray its) d) =
  match its with
  | [] => json 400 (ErrorBody "Invalid items data provided.")
  | _ =>
      match check_stock (products d) its with
      | Accepted _ => placed_reply env (products d) its
      | InvalidProductId _ => json 500 (ErrorBody "Failed to create order")
      | NotFound it => json 404 (product_not_found it)
      | InsufficientStock p it => json 400 (insufficient_stock env p it)
      end
  end.
Proof.
  intros Hcalm.
  destruct (post_orders_outcome env (ItemsArray its) d) as [Hout _].
  pose proof (reply_without_faults _ _ _ _ _ Hcalm Hout) as Hr.
  cbn [Array_isArray array_elements negb orb] in Hr.
  destruct its as [|it0 rest]; [exact Hr|].
  cbn [List.length Nat.eqb] in Hr.
  destruct (check_stock (products d) (it0 :: rest)) as [ps'| | |] eqn:Hchk;
    try exact Hr.
  apply (post_orders_calm_placed env Hcalm (it0 :: rest) d ps'); [discriminate|].
  exact Hchk.
Qed.

(** With no statement rejected, the catalog after a request. *)
Lemma products_calm env its d :
  no_faults env ->
  products (committed (snd (post_orders env (ItemsArray its) d))) =
  match check_stock (products d) its with
  | Accepted ps' => ps'
  | _ => products d
  end.
Proof.
  intros Hcalm.
  destruct (post_orders_outcome env (ItemsArray its) d) as [Hout Hsaved].
  unfold committed. rewrite Hsaved.
  revert Hout. generalize (fst (post_orders env (ItemsArray its) d)).
  generalize (store (snd (post_orders env (ItemsArray its) d))).
  intros d' r Hout.
  inversion Hout as [its' o rows Hi Hne Hchk Hcols Htot Hr Hd
                    |Hbad Hr Hd|it Hne Hchk Hr Hd|p it Hne Hchk Hr Hd
                    |it Hne Hchk Hr Hd|n Hn Hr Hd];
    subst.
  - injection Hi as <-. now rewrite Hchk.
  - destruct Hbad as [Hb|Hb]; [discriminate|]. cbn [array_elements] in Hb.
    now rewrite Hb.
  - cbn [array_elements] in Hchk. now rewrite Hchk.
  - cbn [array_elements] in Hchk. now rewrite Hchk.
  - cbn [array_elements] in Hchk. now rewrite Hchk.
  - rewrite Hcalm in Hn. discriminate.
Qed.

(** X5. Two order requests that name no product in common, under whatever
    spellings of the ids, the store rejecting nothing: each gets the reply it
    would get alone, whether it is served before or after the other, and the
    catalog after both is the same in either order. *)
Theorem disjoint_orders_commute (env1 env2 : environment) (its1 its2 : list item)
    (d : database)
    (Hcalm1 : no_faults env1) (Hcalm2 : no_faults env2)
    (Hdis : disjoint_products its1 its2) :
  let after1 := committed (snd (post_orders env1 (ItemsArray its1) d)) in
  let after2 := committed (snd (post_orders env2 (ItemsArray its2) d)) in
  fst (post_orders env2 (ItemsArray its2) after1)
    = fst (post_orders env2 (ItemsArray its2) d) /\
  fst (post_orders env1 (ItemsArray its1) after2)
    = fst (post_orders env1 (ItemsArray its1) d) /\
  products (committed (snd (post_orders env2 (ItemsArray its2) after1)))
    = products (committed (snd (post_orders env1 (ItemsArray its1) after2))).
Proof.
  intros after1 after2.
  assert (Hdis' : disjoint_products its2 its1).
  { intros a b v Ha Hb Hav Hbv. now apply (Hdis b a v Hb Ha Hbv). }
  assert (H1 : products after1 = match check_stock (products d) its1 with
                                 | Accepted ps' => ps' | _ => products d end)
    by now apply products_calm.
  assert (H2 : products after2 = match check_stock (products d) its2 with
                                 | Accepted ps' => ps' | _ => products d end)
    by now apply products_calm.
  split; [|split].
  - rewrite !reply_calm by assumption. rewrite H1.
    destruct its2 as [|b rest]; [reflexivity|].
    destruct (check_stock (products d) its1) as [ps1| | |] eqn:E1; try reflexivity.
    apply check_stock_accepted in E1 as ->.
    rewrite check_stock_disjoint by assumption.
    destruct (check_stock (products d) (b :: rest)); try reflexivity.
    apply placed_reply_decrement_all.
  - rewrite !reply_calm by assumption. rewrite H2.
    destruct its1 as [|a rest]; [reflexivity|].
    destruct (check_stock (products d) its2) as [ps2| | |] eqn:E2; try reflexivity.
    apply check_stock_accepted in E2 as ->.
    rewrite check_stock_disjoint by assumption.
    destruct (check_stock (products d) (a :: rest)); try reflexivity.
    apply placed_reply_decrement_all.
  - rewrite !products_calm by assumption. rewrite H1, H2.
    destruct (check_stock (products d) its1) as [ps1| | |] eqn:E1;
      destruct (check_stock (products d) its2) as [ps2| | |] eqn:E2;
      rewrite ?E1, ?E2; try reflexivity.
    + pose proof E1 as E1'. pose proof E2 as E2'.
      apply check_stock_accepted in E1' as ->.
      apply check_stock_accepted in E2' as ->.
      rewrite !check_stock_disjoint by assumption. rewrite E1, E2.
      apply decrement_all_comm.
    + apply check_stock_accepted in E1 as ->.
      rewrite check_stock_disjoint by assumption. now rewrite E2.
    + apply check_stock_accepted in E1 as ->.
      rewrite check_stock_disjoint by assumption. now rewrite E2.
    + apply check_stock_accepted in E1 as ->.
      rewrite check_stock_disjoint by assumption. now rewrite E2.
    + apply check_stock_accepted in E2 as ->.
      rewrite check_stock_disjoint by assumption. now rewrite E1.
    + apply check_stock_accepted in E2 as ->.
      rewrite check_stock_disjoint by assumption. now rewrite E1.
    + apply check_stock_accepted in E2 as ->.
      rewrite check_stock_disjoint by assumption. now rewrite E1.
Qed.

(** ** What a reply lists, and what an order leaves alone *)

(** X6. A request answered 200 lists in its reply one entry per input item,
    in order, with the id the item names, as the row holds it, the item's
    quantity, and the name and the price, as a number, that
    [GET /api/products] shows for that product before the order. *)
Theorem reply_lists_items (env : environment) (items : items_field) (d : database)
    (Hok : status (fst (post_orders env items d)) = 200) :
  exists its,
    items = ItemsArray its /\
    response_items (fst (post_orders env items d))
      = Some (map (resolve (products d)) its) /\
    map (fun ri => (Some (r_productId ri), r_quantity ri))
        (map (resolve (products d)) its)
      = map (fun it => (item_id it, quantity it)) its /\
    forall it, In it its ->
      exists lp, In lp (map listed (products d)) /\
                 item_id it = Some (l_id lp) /\
                 r_productId (resolve (products d) it) = l_id lp /\
                 r_name (resolve (products d) it) = l_name lp /\
                 r_price (resolve (products d) it) = l_price lp.
Proof.
  destruct (post_orders_outcome env items d) as [Hout _].
  apply outcome_status in Hout
    as [[_ (its & o & rows & Hi & _ & Hchk & _ & _ & Hr & _)]|[H _]];
    [|contradiction].
  exists its. rewrite Hr. cbn [response_items body json].
  assert (Hall : forall it, In it its -> lookup_item (products d) it <> None)
    by (eapply check_stock_accepted_lookup; eauto).
  split; [assumption|]. split; [reflexivity|]. split.
  - now apply map_resolve_productId.
  - intros it Hit. specialize (Hall it Hit). unfold resolve.
    destruct (lookup_item (products d) it) as [p|] eqn:E; [|contradiction].
    apply lookup_item_id in E as [Hid Hin].
    exists (listed p). split; [now apply in_map|].
    cbn [listed l_id l_name l_price r_productId r_name r_price]. auto.
Qed.

Lemma decrement_all_fixed_columns its : forall ps,
  map fixed_columns (decrement_all its ps) = map fixed_columns ps.
Proof.
  induction its as [|it its IH]; intros ps; [reflexivity|].
  rewrite decrement_all_cons, IH, decrement_map, map_map.
  apply map_ext. intros p. unfold fixed_columns.
  now rewrite adjust_id, adjust_name, adjust_price, adjust_barcode.
Qed.

(** X7. Whatever the request and whatever the store rejects, order placement
    adds and removes no product and changes no product's id, name, price or
    barcode; it keeps every earlier order and order item as it was, adding
    at most one order. *)
Theorem order_leaves_catalog_columns (env : environment) (items : items_field)
    (d : database) :
  let d' := committed (snd (post_orders env items d)) in
  map fixed_columns (products d') = map fixed_columns (products d) /\
  exists new_orders new_rows,
    orders d' = orders d ++ new_orders /\
    order_items d' = order_items d ++ new_rows /\
    (List.length new_orders <= 1)%nat /\
    (new_orders = [] -> new_rows = [] /\ d' = d).
Proof.
  intros d'. subst d'.
  destruct (post_orders_outcome env items d) as [Hout Hsaved].
  unfold committed. rewrite Hsaved.
  apply outcome_status in Hout
    as [[_ (its & o & rows & _ & _ & _ & _ & _ & _ & ->)]|[_ ->]].
  - cbn [products orders order_items].
    split; [apply decrement_all_fixed_columns|].
    exists [o], rows. split; [reflexivity|]. split; [reflexivity|].
    split; [simpl; lia|discriminate].
  - split; [reflexivity|]. exists [], []. rewrite !app_nil_r.
    split; [reflexivity|]. split; [reflexivity|]. split; [simpl; lia|auto].
Qed.

(** X8. After a request answered 200, [GET /api/products] lists, in whatever
    order the store hands the rows over, the same products with the same
    id, name, price and barcode, each stock lowered by the quantities the
    order asked of that product under any spelling of its id. *)
Theorem listing_after_order (env env' : environment)
    (scan : list product -> list product) (items : items_field) (d : database)
    (Hok : status (fst (post_orders env items d)) = 200)
    (Hup : fault env' 0 = false)
    (Hscan : forall l, Permutation (scan l) l) :
  exists its l,
    items = ItemsArray its /\
    get_products env' scan (committed (snd (post_orders env items d)))
      = mkQuery 200 (ProductList l) /\
    Permutation l
      (map (fun lp => mkListed (l_id lp) (l_name lp) (l_price lp)
                               (l_stock lp - requested its (l_id lp))
                               (l_barcode lp))
           (map listed (products d))).
Proof.
  destruct (post_orders_outcome env items d) as [Hout Hsaved].
  unfold committed. rewrite Hsaved.
  apply outcome_status in Hout
    as [[_ (its & o & rows & Hi & _ & _ & _ & _ & _ & ->)]|[H _]];
    [|contradiction].
  exists its. eexists. split; [assumption|].
  unfold get_products. rewrite Hup. cbn [products]. split; [reflexivity|].
  eapply Permutation_trans; [apply Permutation_map, Hscan|].
  rewrite decrement_all_requested, !map_map. apply Permutation_refl.
Qed.

(** ** GET /api/orders/:orderId *)

Lemma filter_none {A : Type} (f : A -> bool) l :
  (forall x, In x l -> f x = false) -> filter f l = [].
Proof.
  induction l as [|a l IH]; intros H; [reflexivity|]. simpl.
  rewrite (H a) by now left. apply IH. intros x Hx. apply H. now right.
Qed.

Lemma flat_map_none {A B : Type} (f : A -> list B) l :
  (forall x, In x l -> f x = []) -> flat_map f l = [].
Proof.
  induction l as [|a l IH]; intros H; [reflexivity|]. simpl.
  rewrite (H a) by now left. apply IH. intros x Hx. apply H. now right.
Qed.

(** Under the primary key the select by id has one row. *)
Lemma filter_by_id ps pid p :
  unique_ids ps -> lookup ps pid = Some p ->
  filter (fun q => N.eqb (id q) pid) ps = [p].
Proof.
  unfold unique_ids, lookup.
  induction ps as [|x ps IH]; intros Hnd Hl; [discriminate|].
  inversion Hnd as [|? ? Hnot Hnd']; subst. cbn [filter] in *.
  destruct (N.eqb (id x) pid) eqn:E.
  - cbn [hd_error] in Hl. injection Hl as <-. f_equal.
    apply filter_none. intros q Hq. apply N.eqb_neq. intros Heq.
    apply Hnot. apply N.eqb_eq in E. rewrite E, <- Heq. now apply in_map.
  - now apply IH.
Qed.

(** The join of an order item with [products]: one line, with the product's
    name, when the product exists and ids are unique. *)
Lemma join_one ps pid (q : Z) :
  unique_ids ps -> lookup ps pid <> None ->
  map (fun p => (name p, q)) (filter (fun p => N.eqb (id p) pid) ps)
  = [(product_name ps pid, q)].
Proof.
  intros Hu Hl. unfold product_name.
  destruct (lookup ps pid) as [p|] eqn:E; [|contradiction].
  now rewrite (filter_by_id ps pid p Hu E).
Qed.

Lemma joined_names_decrement_all its ps pid (q : Z) :
  map (fun p => (name p, q))
      (filter (fun p => N.eqb (id p) pid) (decrement_all its ps))
  = map (fun p => (name p, q)) (filter (fun p => N.eqb (id p) pid) ps).
Proof.
  rewrite decrement_all_requested.
  induction ps as [|p ps IH]; [reflexivity|]. cbn [map filter id set_stock].
  destruct (N.eqb (id p) pid); cbn [map name set_stock]; now rewrite IH.
Qed.

(** The rows of the join for the order of id [oid]. *)
Lemma select_order_items_rows orderId oid d :
  UUID.of_text orderId = Some oid ->
  SQL.select_order_items orderId d =
  Some (flat_map
          (fun oi =>
             if N.eqb (oi_order_id oi) oid
             then map (fun p => (name p, oi_quantity oi))
                      (filter (fun p => N.eqb (id p) (oi_product_id oi))
                              (products d))
             else [])
          (order_items d)).
Proof. intros H. unfold SQL.select_order_items. now rewrite H. Qed.

Lemma select_order_items_products its d os rows orderId :
  SQL.select_order_items orderId
    (mkDatabase (decrement_all its (products d)) os rows)
  = SQL.select_order_items orderId (mkDatabase (products d) os rows).
Proof.
  unfold SQL.select_order_items. destruct (UUID.of_text orderId) as [oid|];
    [|reflexivity].
  cbn [products order_items]. f_equal.
  apply flat_map_ext. intros oi.
  destruct (N.eqb (oi_order_id oi) oid); [|reflexivity].
  apply joined_names_decrement_all.
Qed.

(** Under the primary key of [products] and the foreign key of
    [order_items], the join has one line per order item of the order. *)
Lemma join_lines d oid :
  unique_ids (products d) ->
  (forall oi, In oi (order_items d) ->
              lookup (products d) (oi_product_id oi) <> None) ->
  flat_map
    (fun oi =>
       if N.eqb (oi_order_id oi) oid
       then map (fun p => (name p, oi_quantity oi))
                (filter (fun p => N.eqb (id p) (oi_product_id oi)) (products d))
       else [])
    (order_items d)
  = map (fun oi => (product_name (products d) (oi_product_id oi), oi_quantity oi))
        (filter (fun oi => N.eqb (oi_order_id oi) oid) (order_items d)).
Proof.
  intros Hkey Hfk.
  induction (order_items d) as [|oi rows IH]; [reflexivity|].
  cbn [flat_map filter].
  rewrite IH by (intros x Hx; apply Hfk; now right).
  destruct (N.eqb (oi_order_id oi) oid); [|reflexivity].
  rewrite join_one by (auto; apply Hfk; now left). reflexivity.
Qed.

(** X9. When the store rejects neither query: [GET /api/orders/:orderId]
    answers 500 when the path does not spell an id; otherwise it answers 404
    "Order not found" exactly when no order has the id the path spells; and
    otherwise 200 with an order of that id and, under the primary key of
    [products] and the foreign key of [order_items], exactly one
    {name, quantity} line per order item of that order, none lost and none
    doubled by the join, in whatever order the store hands them over. *)
Theorem get_order_reads (env : environment)
    (scan : list (string * Z) -> list (string * Z))
    (orderId : string) (d : database)
    (Hq0 : fault env 0 = false) (Hq1 : fault env 1 = false)
    (Hscan : forall l, Permutation (scan l) l)
    (Hkey : unique_ids (products d))
    (Hfk : forall oi, In oi (order_items d) ->
                      lookup (products d) (oi_product_id oi) <> None) :
  (UUID.of_text orderId = None ->
   get_order env scan orderId d = mkQuery 500 (QueryError "Failed to fetch order")) /\
  (forall oid, UUID.of_text orderId = Some oid ->
     (get_order env scan orderId d = mkQuery 404 (QueryError "Order not found") <->
      forall o, In o (orders d) -> order_id o <> oid) /\
     ((exists o, In o (orders d) /\ order_id o = oid) ->
      exists o lines,
        In o (orders d) /\ order_id o = oid /\
        get_order env scan orderId d = mkQuery 200 (OrderDetails o lines) /\
        Permutation lines
          (map (fun oi => (product_name (products d) (oi_product_id oi),
                           oi_quantity oi))
               (filter (fun oi => N.eqb (oi_order_id oi) oid) (order_items d))))).
Proof.
  unfold get_order. rewrite Hq0. split.
  { intros Hbad. unfold SQL.select_order. now rewrite Hbad. }
  intros oid Hid.
  rewrite (select_order_items_rows orderId oid d Hid), (join_lines d oid Hkey Hfk).
  unfold SQL.select_order. rewrite Hid.
  destruct (filter _ (orders d)) as [|o rest] eqn:Hsel.
  - assert (Hnone : forall o, In o (orders d) -> order_id o <> oid).
    { intros o Ho Heq.
      assert (Hin : In o (filter (fun o => N.eqb (order_id o) oid) (orders d))).
      { apply filter_In. split; [assumption|]. now apply N.eqb_eq. }
      rewrite Hsel in Hin. destruct Hin. }
    split; [split; auto|]. intros (o & Ho & Heq). now apply Hnone in Ho.
  - assert (Hin : In o (filter (fun o => N.eqb (order_id o) oid) (orders d)))
      by (rewrite Hsel; now left).
    apply filter_In in Hin as [Ho Heq]. apply N.eqb_eq in Heq.
    rewrite Hq1. split.
    + split; [discriminate|]. intros H. now apply H in Ho.
    + intros _. exists o. eexists. split; [assumption|]. split; [assumption|].
      split; [reflexivity|]. apply Hscan.
Qed.

Lemma outcome_order_id env d items r d' oid :
  outcome env d items r d' -> response_order_id r = Some oid ->
  exists its o rows,
    items = ItemsArray its /\
    check_stock (products d) its = Accepted (decrement_all its (products d)) /\
    map oi_columns rows = map (fun it => (oid, item_id it, quantity it)) its /\
    order_id o = oid /\
    total o = with_tax (subtotal (products d) its) /\
    r = json 200 (OrderBody oid (JS.toFixed2 (Number_digits env) (total o))
                            (pickup_code o)
                            (map (resolve (products d)) its)) /\
    d' = mkDatabase (decrement_all its (products d)) (orders d ++ [o])
                    (order_items d ++ rows).
Proof.
  intros H Hid. inversion H; subst; cbn [response_order_id body json] in Hid;
    try discriminate.
  injection Hid as <-. eauto 12.
Qed.

(** The lines the join gives for the rows of a placed order. *)
Lemma placed_order_lines ps its oid : forall rows,
  unique_ids ps ->
  (forall it, In it its -> lookup_item ps it <> None) ->
  map oi_columns rows = map (fun it => (oid, item_id it, quantity it)) its ->
  flat_map
    (fun oi =>
       if N.eqb (oi_order_id oi) oid
       then map (fun p => (name p, oi_quantity oi))
                (filter (fun p => N.eqb (id p) (oi_product_id oi)) ps)
       else [])
    rows
  = map (fun it => (item_name ps it, quantity it)) its.
Proof.
  induction its as [|it its IH]; intros [|row rows] Hkey Hall Hcols;
    try discriminate; [reflexivity|].
  cbn [map] in Hcols. unfold oi_columns at 1 in Hcols.
  injection Hcols as Hoid Hpid Hq Hcols.
  cbn [flat_map map]. rewrite Hoid, N.eqb_refl, Hq.
  assert (Hname : product_name ps (oi_product_id row) = item_name ps it).
  { unfold product_name, item_name, lookup_item. now rewrite <- Hpid. }
  rewrite join_one.
  - rewrite Hname. cbn [app]. f_equal. apply IH; auto.
    intros x Hx. apply Hall. now right.
  - assumption.
  - specialize (Hall it (or_introl eq_refl)). unfold lookup_item in Hall.
    now rewrite <- Hpid in Hall.
Qed.

(** X10. Place, then fetch: when [POST /api/orders] answers with an order id
    that no earlier order or order item carries, [GET /api/orders/] with any
    spelling of that id answers 200 with the order whose total and pickup
    code the reply showed and, under the primary key of [products], one
    {name, quantity} line per input item, with the product's name and the
    requested quantity, in whatever order the store hands them over. *)
Theorem placed_order_can_be_fetched (env env' : environment)
    (scan : list (string * Z) -> list (string * Z))
    (items : items_field) (d : database) (oid : uuid) (orderId : string)
    (Hid : response_order_id (fst (post_orders env items d)) = Some oid)
    (Htext : UUID.of_text orderId = Some oid)
    (Hnew : forall o, In o (orders d) -> order_id o <> oid)
    (Hnone : forall oi, In oi (order_items d) -> oi_order_id oi <> oid)
    (Hkey : unique_ids (products d))
    (Hq0 : fault env' 0 = false) (Hq1 : fault env' 1 = false)
    (Hscan : forall l, Permutation (scan l) l) :
  exists its o lines,
    items = ItemsArray its /\
    order_id o = oid /\
    fst (post_orders env items d)
      = json 200 (OrderBody oid (JS.toFixed2 (Number_digits env) (total o))
                            (pickup_code o)
                            (map (resolve (products d)) its)) /\
    get_order env' scan orderId (committed (snd (post_orders env items d)))
      = mkQuery 200 (OrderDetails o lines) /\
    Permutation lines
      (map (fun it => (item_name (products d) it, quantity it)) its).
Proof.
  destruct (post_orders_outcome env items d) as [Hout Hsaved].
  unfold committed. rewrite Hsaved.
  destruct (outcome_order_id _ _ _ _ _ _ Hout Hid)
    as (its & o & rows & Hi & Hchk & Hcols & Ho & Htot & Hr & ->).
  exists its, o. eexists.
  split; [assumption|]. split; [assumption|]. split; [assumption|].
  unfold get_order. rewrite Hq0. unfold SQL.select_order. rewrite Htext.
  cbn [orders].
  rewrite filter_app, filter_none.
  2:{ intros x Hx. apply N.eqb_neq. now apply Hnew. }
  cbn [app filter]. rewrite Ho, N.eqb_refl, Hq1.
  rewrite select_order_items_products.
  rewrite (select_order_items_rows orderId oid _ Htext).
  split; [reflexivity|].
  eapply Permutation_trans; [apply Hscan|].
  cbn [products order_items]. rewrite flat_map_app, flat_map_none.
  2:{ intros oi Hoi. apply Hnone in Hoi. apply N.eqb_neq in Hoi.
      now rewrite Hoi. }
  cbn [app].
  rewrite (placed_order_lines (products d) its oid rows); auto.
  eapply check_stock_accepted_lookup; eauto.
Qed.

(** X11. Order placement never changes what [GET /api/orders/:orderId]
    answers for another order: for every request and every path that does
    not spell the id the reply carries, the answer after the request is the
    answer before it, up to the order of the lines. *)
Theorem other_orders_unchanged (env env' : environment)
    (scan scan' : list (string * Z) -> list (string * Z))
    (items : items_field) (d : database) (orderId : string)
    (Hscan : forall l, Permutation (scan l) l)
    (Hscan' : forall l, Permutation (scan' l) l)
    (Hother : forall oid, UUID.of_text orderId = Some oid ->
                response_order_id (fst (post_orders env items d)) <> Some oid) :
  same_answer
    (get_order env' scan orderId (committed (snd (post_orders env items d))))
    (get_order env' scan' orderId d).
Proof.
  assert (Hsame : forall d0, same_answer (get_order env' scan orderId d0)
                                         (get_order env' scan' orderId d0)).
  { intros d0. unfold get_order, same_answer.
    destruct (fault env' 0); [now split|].
    destruct (SQL.select_order orderId d0) as [[|o rest]|]; try now split.
    destruct (fault env' 1); [now split|].
    destruct (SQL.select_order_items orderId d0) as [rows|]; [|now split].
    cbn [q_status q_body]. split; [reflexivity|]. split; [reflexivity|].
    eapply Permutation_trans; [apply Hscan|]. apply Permutation_sym, Hscan'. }
  destruct (post_orders_outcome env items d) as [Hout Hsaved].
  unfold committed. rewrite Hsaved.
  apply outcome_status in Hout
    as [[_ (its & o & rows & _ & _ & _ & Hcols & _ & Hr & ->)]|[_ ->]];
    [|apply Hsame].
  rewrite Hr in Hother. cbn [response_order_id body json] in Hother.
  replace (get_order env' scan orderId
             (mkDatabase (decrement_all its (products d)) (orders d ++ [o])
                         (order_items d ++ rows)))
    with (get_order env' scan orderId d); [apply Hsame|].
  unfold get_order. rewrite select_order_items_products.
  unfold SQL.select_order, SQL.select_order_items.
  destruct (UUID.of_text orderId) as [oid|]; [|reflexivity].
  assert (Hne : N.eqb (order_id o) oid = false).
  { apply N.eqb_neq. intros Heq. apply (Hother oid eq_refl). now rewrite Heq. }
  cbn [orders products order_items].
  rewrite filter_app. cbn [filter]. rewrite Hne, app_nil_r.
  rewrite flat_map_app.
  rewrite (flat_map_none _ rows), app_nil_r; [reflexivity|].
  intros oi Hoi.
  assert (Hc : In (oi_columns oi) (map oi_columns rows)) by now apply in_map.
  rewrite Hcols in Hc. apply in_map_iff in Hc as (it & Heq & _).
  unfold oi_columns in Heq. injection Heq as Hoid _ _.
  now rewrite <- Hoid, Hne.
Qed.

(** ** The constraints of [products] over the life of the service *)

Lemma NoDup_map_eq {A B : Type} (f : A -> B) l x y :
  NoDup (map f l) -> In x l -> In y l -> f x = f y -> x = y.
Proof.
  induction l as [|a l IH]; intros Hnd Hx Hy Heq; [destruct Hx|].
  cbn [map] in Hnd. inversion Hnd as [|? ? Hnot Hnd']; subst.
  destruct Hx as [->|Hx]; destruct Hy as [->|Hy]; auto.
  - exfalso. apply Hnot. rewrite Heq. now apply in_map.
  - exfalso. apply Hnot. rewrite <- Heq. now apply in_map.
Qed.

Lemma NoDup_snoc {A : Type} (l : list A) x :
  NoDup l -> ~ In x l -> NoDup (l ++ [x]).
Proof.
  intros Hnd Hx. induction l as [|a l IH]; simpl.
  - constructor; [intros []|constructor].
  - inversion Hnd; subst. constructor.
    + rewrite in_app_iff. simpl. intros [Hin|[Heq|[]]]; [contradiction|].
      apply Hx. now left.
    + apply IH; auto. intros Hin. apply Hx. now right.
Qed.

Lemma upsert_schema new_id s ps ps' :
  upsert new_id s ps = Some ps' ->
  unique_ids ps /\ unique_names ps /\ unique_barcodes ps ->
  unique_ids ps' /\ unique_names ps' /\ unique_barcodes ps'.
Proof.
  intros H (Hids & Hnames & Hcodes).
  split; [|split; [now apply (upsert_names new_id s ps)|]];
    apply upsert_cases in H as [(_ & -> & Hbar)|(Hex & -> & Hid & Hbar)].
  - unfold unique_ids. rewrite map_map. erewrite map_ext; [exact Hids|].
    intros; apply overwrite_id.
  - unfold unique_ids. rewrite map_app. apply NoDup_snoc; [assumption|].
    intros Hin. apply in_map_iff in Hin as (p & Hp & Hin). now apply Hid in Hin.
  - intros p q b Hp Hq Hpb Hqb.
    apply in_map_iff in Hp as (p0 & <- & Hp0).
    apply in_map_iff in Hq as (q0 & <- & Hq0).
    unfold overwrite in *.
    destruct (named s p0) eqn:Np; destruct (named s q0) eqn:Nq.
    + apply named_iff in Np, Nq.
      assert (p0 = q0) by (apply (NoDup_map_eq name ps); auto; congruence).
      now subst.
    + cbn [excluded barcode] in Hpb. rewrite <- Hpb in Hqb.
      apply Hbar in Hqb; [|assumption]. apply named_false_iff in Nq. contradiction.
    + cbn [excluded barcode] in Hqb. rewrite <- Hqb in Hpb.
      apply Hbar in Hpb; [|assumption]. apply named_false_iff in Np. contradiction.
    + now apply (Hcodes p0 q0 b).
  - intros p q b Hp Hq Hpb Hqb.
    apply in_app_or in Hp as [Hp|[<-|[]]]; apply in_app_or in Hq as [Hq|[<-|[]]].
    + now apply (Hcodes p q b).
    + cbn [sample_row barcode] in Hqb. rewrite <- Hqb in Hpb. now apply Hbar in Hpb.
    + cbn [sample_row barcode] in Hpb. rewrite <- Hpb in Hqb. now apply Hbar in Hqb.
    + reflexivity.
Qed.

Lemma upsert_all_schema ss : forall ids n ps ps',
  upsert_all ids n ss ps = Some ps' ->
  unique_ids ps /\ unique_names ps /\ unique_barcodes ps ->
  unique_ids ps' /\ unique_names ps' /\ unique_barcodes ps'.
Proof.
  induction ss as [|s ss IH]; intros ids n ps ps' H Hinv; simpl in H.
  - now injection H as <-.
  - destruct (upsert (ids n) s ps) as [ps1|] eqn:E; [|discriminate].
    apply (IH ids (S n) ps1 ps' H). now apply (upsert_schema (ids n) s ps).
Qed.

Lemma decrement_all_schema its ps :
  unique_ids ps /\ unique_names ps /\ unique_barcodes ps ->
  unique_ids (decrement_all its ps) /\ unique_names (decrement_all its ps)
  /\ unique_barcodes (decrement_all its ps).
Proof.
  intros (Hids & Hnames & Hcodes). split; [|split].
  - unfold unique_ids. now rewrite decrement_all_ids.
  - unfold unique_names. rewrite decrement_all_requested, map_map. exact Hnames.
  - rewrite decrement_all_requested. intros p q b Hp Hq Hpb Hqb.
    apply in_map_iff in Hp as (p0 & <- & Hp0).
    apply in_map_iff in Hq as (q0 & <- & Hq0).
    cbn [set_stock barcode] in Hpb, Hqb.
    now rewrite (Hcodes p0 q0 b Hp0 Hq0 Hpb Hqb).
Qed.

Lemma step_schema d e : schema_invariant d -> schema_invariant (step d e).
Proof.
  unfold schema_invariant. intros Hinv. destruct e as [env|env items]; cbn [step].
  - destruct (initDB env d) as [d'|] eqn:E; [|assumption].
    apply initDB_products in E as (Hup & _ & _).
    exact (upsert_all_schema _ _ _ _ _ Hup Hinv).
  - destruct (post_orders_outcome env items d) as [Hout Hsaved].
    unfold committed. rewrite Hsaved.
    apply outcome_status in Hout
      as [[_ (its & o & rows & _ & _ & _ & _ & _ & _ & ->)]|[_ ->]];
      [|assumption].
    cbn [products]. now apply decrement_all_schema.
Qed.

(** X12. From empty tables, through any starts of the server and any order
    requests served one after the other, with any store failures, the rows
    of [products] keep distinct ids, distinct names and distinct barcodes:
    the handlers never bring the tables to a state the [PRIMARY KEY] and
    [UNIQUE] constraints would refuse. *)
Theorem schema_invariant_always (es : list event) :
  schema_invariant (run empty_database es).
Proof.
  unfold run.
  assert (H0 : schema_invariant empty_database).
  { split; [constructor|]. split; [constructor|]. intros p q b []. }
  revert H0. generalize empty_database.
  induction es as [|e es IH]; intros d Hd; cbn [fold_left]; [assumption|].
  apply IH. now apply step_schema.
Qed.

(** ** Restarting on the service's own data *)

Lemma upsert_existing new_id s ps :
  (exists p, In p ps /\ name p = s_name s) ->
  (forall p, In p ps -> barcode p = Some (s_barcode s) -> name p = s_name s) ->
  upsert new_id s ps = Some (map (overwrite s) ps).
Proof.
  intros (p0 & Hp0 & Hn0) Hbar. unfold upsert. fold (named s).
  replace (existsb (named s) ps) with true.
  2:{ symmetry. apply existsb_exists. exists p0. split; [assumption|].
      now apply named_iff. }
  replace (existsb _ ps) with false; [reflexivity|].
  symmetry. apply existsb_false. intros p Hp.
  destruct (has_barcode (s_barcode s) p) eqn:Hb; [|apply andb_false_r].
  apply has_barcode_iff in Hb. apply Hbar in Hb; [|assumption].
  apply named_iff in Hb. unfold named in Hb. now rewrite Hb.
Qed.

Lemma upsert_all_existing ss : forall ids n ps,
  NoDup (map s_barcode ss) ->
  barcodes_available ss ps ->
  (forall s, In s ss -> exists p, In p ps /\ name p = s_name s) ->
  exists ps', upsert_all ids n ss ps = Some ps'.
Proof.
  induction ss as [|s ss IH]; intros ids n ps Hcodes Hav Hex; cbn [upsert_all];
    [eauto|].
  inversion Hcodes as [|? ? Hc0 Hcodes']; subst.
  rewrite upsert_existing.
  2:{ apply Hex. now left. }
  2:{ intros p Hp Hb. apply (Hav s p); auto. now left. }
  apply IH; auto.
  - intros s' p Hs' Hp Hb. apply in_map_iff in Hp as (q & <- & Hq).
    rewrite overwrite_name. unfold overwrite in Hb.
    destruct (named s q).
    + cbn [excluded barcode] in Hb. exfalso. apply Hc0.
      injection Hb as Hb. rewrite Hb. now apply in_map.
    + apply (Hav s' q); auto. now right.
  - intros s' Hs'. destruct (Hex s' (or_intror Hs')) as (p & Hp & Hn).
    exists (overwrite s p). split; [now apply in_map|].
    now rewrite overwrite_name.
Qed.

Lemma step_restartable d e : restartable d -> restartable (step d e).
Proof.
  intros [Hav Hex]. destruct e as [env|env items]; cbn [step].
  - destruct (initDB env d) as [d'|] eqn:E; [|now split].
    apply initDB_products in E as (Hup & _ & _).
    assert (Hset : forall s, In s sample_products -> settled s (products d')).
    { eapply upsert_all_settles; eauto using sample_names_distinct,
        sample_barcodes_distinct. }
    split.
    + intros s p Hs Hp Hb. destruct (Hset s Hs) as (_ & _ & H). now apply H.
    + right. intros s Hs. now destruct (Hset s Hs) as (H & _).
  - destruct (post_orders_outcome env items d) as [Hout Hsaved].
    unfold committed. rewrite Hsaved.
    apply outcome_status in Hout
      as [[_ (its & o & rows & _ & _ & _ & _ & _ & _ & ->)]|[_ ->]];
      [|now split].
    cbn [products]. rewrite decrement_all_requested. split.
    + intros s p Hs Hp Hb. apply in_map_iff in Hp as (q & <- & Hq).
      cbn [set_stock name barcode] in *. now apply (Hav s q).
    + destruct Hex as [->|Hex]; [now left|]. right.
      intros s Hs. destruct (Hex s Hs) as (p & Hp & Hn).
      exists (set_stock (stock p - requested its (id p)) p).
      split; [|exact Hn].
      apply in_map_iff. exists p. auto.
Qed.

Lemma restartable_always es : restartable (run empty_database es).
Proof.
  unfold run.
  assert (H0 : restartable empty_database).
  { split; [intros s p _ []|now left]. }
  revert H0. generalize empty_database.
  induction es as [|e es IH]; intros d Hd; cbn [fold_left]; [assumption|].
  apply IH. now apply step_restartable.
Qed.

(** X13. In every state the service reaches from empty tables, by starts and
    order requests with any store failures, the seed step of the next start
    completes, provided the store rejects none of its four statements and,
    if the catalog is still empty, the nine ids it draws are distinct: the
    [UNIQUE] barcode is never in its way. *)
Theorem restart_completes (es : list event) (env : environment)
    (Hcalm : no_faults env)
    (Hids : products (run empty_database es) = [] ->
            forall i j, (i < j)%nat -> (j < 9)%nat ->
                        gen_random_uuid env i <> gen_random_uuid env j) :
  exists d', initDB env (run empty_database es) = Some d'.
Proof.
  destruct (restartable_always es) as [Hav Hex].
  unfold initDB. rewrite !Hcalm. cbn [orb].
  destruct Hex as [Hempty|Hex].
  - destruct (upsert_all_succeeds sample_products (gen_random_uuid env) 0
                (products (run empty_database es))) as [ps' ->];
      eauto using sample_barcodes_distinct.
    rewrite Hempty. split.
    + intros i p _ [].
    + intros i j Hij Hj. apply Hids; [assumption|lia|].
      cbn [List.length sample_products] in Hj. lia.
  - destruct (upsert_all_existing sample_products (gen_random_uuid env) 0
                (products (run empty_database es))) as [ps' ->];
      eauto using sample_barcodes_distinct.
Qed.

(** ** Unknown products *)


Lemma check_stock_invalid its : forall ps it,
  check_stock ps its = InvalidProductId it ->
  exists pre post,
    its = pre ++ it :: post /\
    check_stock ps pre = Accepted (decrement_all pre ps) /\
    item_id it = None.
Proof.
  induction its as [|i its IH]; intros ps it H; cbn [check_stock] in H;
    [discriminate|].
  destruct (item_id i) as [pid|] eqn:Hid.
  - destruct (lookup ps pid) as [q|] eqn:E; [|discriminate].
    destruct (stock q <? quantity i) eqn:Hlt; [discriminate|].
    apply IH in H as (pre & post & -> & Hpre & Hid').
    exists (i :: pre), post. cbn [check_stock app]. rewrite Hid, E, Hlt. auto.
  - injection H as <-. exists [], its. auto.
Qed.



(** ** Barcodes after seeding *)

(** X15. After a completed seed step, [GET /api/products/barcode/] of any
    sample's barcode answers 200 with a product of that sample's name, at
    the sample's price and stock, whenever the store does not reject the
    query. *)
Theorem seeded_barcodes_resolve (env env' : environment) (d d' : database)
    (s : sample)
    (Hrun : initDB env d = Some d')
    (Hs : In s sample_products)
    (Hq : fault env' 0 = false) :
  exists p,
    get_product_by_barcode env' (s_barcode s) d' = json 200 (ProductBody p) /\
    In p (products d') /\
    name p = s_name s /\ price p = s_price s /\ stock p = s_stock s.
Proof.
  apply initDB_products in Hrun as (Hup & _ & _).
  assert (Hset : settled s (products d')).
  { eapply upsert_all_settles; eauto using sample_names_distinct,
      sample_barcodes_distinct. }
  destruct Hset as ((p0 & Hp0 & Hn0) & Hval & Hbar).
  unfold get_product_by_barcode. rewrite Hq.
  unfold SQL.select_products_by_barcode. fold (has_barcode (s_barcode s)).
  destruct (filter (has_barcode (s_barcode s)) (products d')) as [|p rows] eqn:Hrows.
  - exfalso. destruct (Hval p0 Hp0 Hn0) as (_ & _ & Hb).
    assert (Hin : In p0 (filter (has_barcode (s_barcode s)) (products d'))).
    { apply filter_In. split; [assumption|]. now apply has_barcode_iff. }
    rewrite Hrows in Hin. destruct Hin.
  - assert (Hin : In p (filter (has_barcode (s_barcode s)) (products d')))
      by (rewrite Hrows; now left).
    apply filter_In in Hin as [Hp Hb]. apply has_barcode_iff in Hb.
    pose proof (Hbar p Hp Hb) as Hn. destruct (Hval p Hp Hn) as (? & ? & ?).
    exists p. auto.
Qed.

(** ** Instances of the theorems above *)

Lemma calm'_no_faults : no_faults calm'.
Proof. intros n. reflexivity. Qed.

Lemma after_milk_order_unique_ids : unique_ids (products after_milk_order).
Proof.
  unfold unique_ids. vm_compute.
  repeat (constructor; [simpl; intuition discriminate|]). constructor.
Qed.

Lemma rev_scan {A : Type} (l : list A) : Permutation (rev l) l.
Proof. apply Permutation_sym, Permutation_rev. Qed.

Lemma connectDB_first_success_witness :
  (3 < 10)%nat /\
  slow_pool 3 = None /\
  (forall j, (j < 3)%nat -> slow_pool j <> None) /\
  let run := connectDB slow_pool in
  pool run = PoolReady /\
  attempts run = 4%nat /\
  waited run = 2000 * Z.of_nat 3 /\
  List.length (console run) = 4%nat /\
  last (console run) "" = "Database connected!".
Proof.
  assert (Hk : (3 < 10)%nat) by lia.
  assert (Hok : slow_pool 3 = None) by reflexivity.
  assert (Hfirst : forall j, (j < 3)%nat -> slow_pool j <> None).
  { intros j Hj. destruct j as [|[|[|j]]]; try lia; discriminate. }
  split; [exact Hk|]. split; [exact Hok|]. split; [exact Hfirst|].
  exact (connectDB_first_success slow_pool 3 Hk Hok Hfirst).
Defined.

Lemma disjoint_orders_commute_witness :
  let its1 := [mkItem milk_id 2; mkItem "{00000000000040008000000000000000}" 1] in
  let its2 := [mkItem bread_id 3] in
  no_faults calm /\ no_faults calm' /\ disjoint_products its1 its2 /\
  let after1 := committed (snd (post_orders calm (ItemsArray its1) seeded)) in
  let after2 := committed (snd (post_orders calm' (ItemsArray its2) seeded)) in
  fst (post_orders calm' (ItemsArray its2) after1)
    = fst (post_orders calm' (ItemsArray its2) seeded) /\
  fst (post_orders calm (ItemsArray its1) after2)
    = fst (post_orders calm (ItemsArray its1) seeded) /\
  products (committed (snd (post_orders calm' (ItemsArray its2) after1)))
    = products (committed (snd (post_orders calm (ItemsArray its1) after2))).
Proof.
  intros its1 its2.
  assert (Hdis : disjoint_products its1 its2).
  { intros a b v [<-|[<-|[]]] [<-|[]] Ha Hb;
      vm_compute in Ha, Hb; congruence. }
  split; [exact calm_no_faults|]. split; [exact calm'_no_faults|].
  split; [exact Hdis|].
  exact (disjoint_orders_commute calm calm' its1 its2 seeded
           calm_no_faults calm'_no_faults Hdis).
Defined.

Lemma reply_lists_items_witness :
  let items := ItemsArray [mkItem "00000000000040008000000000000000" 2;
                           mkItem bread_id 1] in
  status (fst (post_orders calm items seeded)) = 200 /\
  exists its,
    items = ItemsArray its /\
    response_items (fst (post_orders calm items seeded))
      = Some (map (resolve (products seeded)) its) /\
    map (fun ri => (Some (r_productId ri), r_quantity ri))
        (map (resolve (products seeded)) its)
      = map (fun it => (item_id it, quantity it)) its /\
    forall it, In it its ->
      exists lp, In lp (map listed (products seeded)) /\
                 item_id it = Some (l_id lp) /\
                 r_productId (resolve (products seeded) it) = l_id lp /\
                 r_name (resolve (products seeded) it) = l_name lp /\
                 r_price (resolve (products seeded) it) = l_price lp.
Proof.
  intros items.
  assert (Hok : status (fst (post_orders calm items seeded)) = 200)
    by (vm_compute; reflexivity).
  split; [exact Hok|]. exact (reply_lists_items calm items seeded Hok).
Defined.

Lemma listing_after_order_witness :
  let items := ItemsArray [mkItem milk_id 2; mkItem bread_id 1;
                           mkItem "{00000000000040008000000000000000}" 3] in
  status (fst (post_orders calm items seeded)) = 200 /\
  fault calm' 0 = false /\
  (forall l : list product, Permutation (rev l) l) /\
  exists its l,
    items = ItemsArray its /\
    get_products calm' (@rev product)
                 (committed (snd (post_orders calm items seeded)))
      = mkQuery 200 (ProductList l) /\
    Permutation l
      (map (fun lp => mkListed (l_id lp) (l_name lp) (l_price lp)
                               (l_stock lp - requested its (l_id lp))
                               (l_barcode lp))
           (map listed (products seeded))).
Proof.
  intros items.
  assert (Hok : status (fst (post_orders calm items seeded)) = 200)
    by (vm_compute; reflexivity).
  split; [exact Hok|]. split; [reflexivity|]. split; [exact rev_scan|].
  exact (listing_after_order calm calm' (@rev product) items seeded Hok eq_refl
           rev_scan).
Defined.

Lemma get_order_reads_witness :
  let d := after_milk_order in
  let orderId := milk_order_id_braced in
  let scan := @rev (string * Z) in
  fault calm 0 = false /\ fault calm 1 = false /\
  (forall l, Permutation (scan l) l) /\
  unique_ids (products d) /\
  (forall oi, In oi (order_items d) ->
              lookup (products d) (oi_product_id oi) <> None) /\
  (UUID.of_text orderId = None ->
   get_order calm scan orderId d = mkQuery 500 (QueryError "Failed to fetch order")) /\
  (forall oid, UUID.of_text orderId = Some oid ->
     (get_order calm scan orderId d = mkQuery 404 (QueryError "Order not found") <->
      forall o, In o (orders d) -> order_id o <> oid) /\
     ((exists o, In o (orders d) /\ order_id o = oid) ->
      exists o lines,
        In o (orders d) /\ order_id o = oid /\
        get_order calm scan orderId d = mkQuery 200 (OrderDetails o lines) /\
        Permutation lines
          (map (fun oi => (product_name (products d) (oi_product_id oi),
                           oi_quantity oi))
               (filter (fun oi => N.eqb (oi_order_id oi) oid) (order_items d))))).
Proof.
  intros d orderId scan.
  assert (Hfk : forall oi, In oi (order_items d) ->
                  lookup (products d) (oi_product_id oi) <> None).
  { intros oi Hoi. vm_compute in Hoi. destruct Hoi as [<-|[]].
    vm_compute. discriminate. }
  split; [reflexivity|]. split; [reflexivity|]. split; [exact rev_scan|].
  split; [exact after_milk_order_unique_ids|]. split; [exact Hfk|].
  exact (get_order_reads calm scan orderId d eq_refl eq_refl rev_scan
           after_milk_order_unique_ids Hfk).
Defined.

(** The order of [after_milk_order] fetched under two spellings of its id,
    and a path that spells none. *)
Example fetch_milk_order :
  q_status (get_order calm (fun l => l) milk_order_id after_milk_order) = 200 /\
  get_order calm (fun l => l) milk_order_id_braced after_milk_order
    = get_order calm (fun l => l) milk_order_id after_milk_order /\
  q_body (get_order calm (fun l => l) milk_order_id after_milk_order)
    = OrderDetails (mkOrder milk_order_uuid 6.48%float 1700000600 "550000")
                   [("Milk", 2)] /\
  get_order calm (fun l => l) "1104" after_milk_order
    = mkQuery 500 (QueryError "Failed to fetch order") /\
  get_order calm (fun l => l) "11111111-1111-4111-8111-111111111105" after_milk_order
    = mkQuery 404 (QueryError "Order not found").
Proof. vm_compute. repeat split. Qed.

Lemma placed_order_can_be_fetched_witness :
  let items := ItemsArray [mkItem milk_id 2; mkItem bread_id 1] in
  let oid := 0x11111111111141118111111111111106%N in
  let orderId := "11111111-1111-4111-8111-111111111106" in
  let scan := @rev (string * Z) in
  response_order_id (fst (post_orders calm items seeded)) = Some oid /\
  UUID.of_text orderId = Some oid /\
  (forall o, In o (orders seeded) -> order_id o <> oid) /\
  (forall oi, In oi (order_items seeded) -> oi_order_id oi <> oid) /\
  unique_ids (products seeded) /\
  fault calm' 0 = false /\ fault calm' 1 = false /\
  (forall l, Permutation (scan l) l) /\
  exists its o lines,
    items = ItemsArray its /\
    order_id o = oid /\
    fst (post_orders calm items seeded)
      = json 200 (OrderBody oid (JS.toFixed2 (Number_digits calm) (total o))
                            (pickup_code o)
                            (map (resolve (products seeded)) its)) /\
    get_order calm' scan orderId (committed (snd (post_orders calm items seeded)))
      = mkQuery 200 (OrderDetails o lines) /\
    Permutation lines
      (map (fun it => (item_name (products seeded) it, quantity it)) its).
Proof.
  intros items oid orderId scan.
  assert (Hid : response_order_id (fst (post_orders calm items seeded)) = Some oid)
    by (vm_compute; reflexivity).
  assert (Htext : UUID.of_text orderId = Some oid) by (vm_compute; reflexivity).
  assert (Hnew : forall o, In o (orders seeded) -> order_id o <> oid).
  { intros o Ho. vm_compute in Ho. destruct Ho. }
  assert (Hnone : forall oi, In oi (order_items seeded) -> oi_order_id oi <> oid).
  { intros oi Hoi. vm_compute in Hoi. destruct Hoi. }
  split; [exact Hid|]. split; [exact Htext|]. split; [exact Hnew|].
  split; [exact Hnone|].
  split; [exact seeded_unique_ids|]. split; [reflexivity|]. split; [reflexivity|].
  split; [exact rev_scan|].
  exact (placed_order_can_be_fetched calm calm' scan items seeded oid orderId
           Hid Htext Hnew Hnone seeded_unique_ids eq_refl eq_refl rev_scan).
Defined.

Lemma other_orders_unchanged_witness :
  let items := ItemsArray [mkItem bread_id 4] in
  let scan := @rev (string * Z) in
  let scan' := fun l : list (string * Z) => l in
  (forall l, Permutation (scan l) l) /\
  (forall l, Permutation (scan' l) l) /\
  (forall oid, UUID.of_text milk_order_id = Some oid ->
     response_order_id (fst (post_orders calm' items after_milk_order)) <> Some oid) /\
  same_answer
    (get_order calm scan milk_order_id
               (committed (snd (post_orders calm' items after_milk_order))))
    (get_order calm scan' milk_order_id after_milk_order).
Proof.
  intros items scan scan'.
  assert (Hscan' : forall l, Permutation (scan' l) l)
    by (intros l; apply Permutation_refl).
  assert (Hother : forall oid, UUID.of_text milk_order_id = Some oid ->
            response_order_id (fst (post_orders calm' items after_milk_order))
            <> Some oid).
  { intros oid Hoid. vm_compute in Hoid. injection Hoid as <-.
    intros H. vm_compute in H. discriminate H. }
  split; [exact rev_scan|]. split; [exact Hscan'|]. split; [exact Hother|].
  exact (other_orders_unchanged calm' calm scan scan' items after_milk_order
           milk_order_id rev_scan Hscan' Hother).
Defined.

Lemma restart_completes_witness :
  let es := [Startup startup; PlaceOrder calm (ItemsArray [mkItem milk_id 2])] in
  no_faults calm /\
  (products (run empty_database es) = [] ->
   forall i j, (i < j)%nat -> (j < 9)%nat ->
               gen_random_uuid calm i <> gen_random_uuid calm j) /\
  exists d', initDB calm (run empty_database es) = Some d'.
Proof.
  intros es.
  assert (Hids : products (run empty_database es) = [] ->
                 forall i j, (i < j)%nat -> (j < 9)%nat ->
                             gen_random_uuid calm i <> gen_random_uuid calm j).
  { intros H. vm_compute in H. discriminate H. }
  split; [exact calm_no_faults|]. split; [exact Hids|].
  exact (restart_completes es calm calm_no_faults Hids).
Defined.


Lemma seeded_barcodes_resolve_witness :
  let s := mkSample "Eggs" 350 75 "6677889900" in
  initDB startup empty_database = Some seeded /\
  In s sample_products /\
  fault calm 0 = false /\
  exists p,
    get_product_by_barcode calm (s_barcode s) seeded = json 200 (ProductBody p) /\
    In p (products seeded) /\
    name p = s_name s /\ price p = s_price s /\ stock p = s_stock s.
Proof.
  intros s.
  assert (Hrun : initDB startup empty_database = Some seeded)
    by (vm_compute; reflexivity).
  assert (Hs : In s sample_products) by (right; right; left; reflexivity).
  split; [exact Hrun|]. split; [exact Hs|]. split; [reflexivity|].
  exact (seeded_barcodes_resolve startup calm empty_database seeded s
           Hrun Hs eq_refl).
Defined.

Lemma initDB_succeeds_witness :
  no_faults startup /\
  barcodes_available sample_products (products empty_database) /\
  ids_fresh (gen_random_uuid startup) 0 9 (products empty_database) /\
  exists d', initDB startup empty_database = Some d'.
Proof.
  assert (Hcalm : no_faults startup) by (intros n; reflexivity).
  assert (Hav : barcodes_available sample_products (products empty_database))
    by (intros s p _ []).
  assert (Hfresh : ids_fresh (gen_random_uuid startup) 0 9 (products empty_database)).
  { split; [intros i p _ []|].
    intros i j Hij Hj.
    do 9 (destruct j as [|j];
          [do 9 (destruct i as [|i]; [try lia; vm_compute; discriminate|]); lia|]).
    lia. }
  split; [exact Hcalm|]. split; [exact Hav|]. split; [exact Hfresh|].
  exact (initDB_succeeds startup empty_database Hcalm Hav Hfresh).
Defined.
